(** * go-configfile: the [Load] function of package [configfile]

    A shallow embedding of [src/configfile.go] and a verification of the
    properties its specification states.

    [Load] opens a file, scans it line by line, skips blank lines and
    comments, splits every other line at its first ['='], trims both halves
    and hands the pair to [flag.Set].  The embedding keeps that shape:

    - Go strings are byte strings ([string]); white space is what
      [strings.TrimSpace] strips: the white space of Unicode, in UTF-8;
    - the pieces of Go's [strings] package that [Load] calls ([TrimSpace],
      [HasPrefix], [Cut]) are functions on them;
    - the [bufio.Scanner] is what it delivers: the successive [Text()] of
      the lines and the final [Err()];
    - the [flag] package is an interface ([Registry]) that [Load] is
      generic in; Go's own [flag.FlagSet] with string, boolean and integer
      flags is one instance of it, a call-recording wrapper is another, and
      so are a flag set with the README's [config-file] flag and one with a
      user-defined collecting flag;
    - the mutable, process-wide flag set is threaded through explicitly:
      every operation takes the registry and returns the new registry
      together with the [error] ([None] for Go's [nil]). *)

From stdpp Require Import gmap strings list.
From Stdlib Require Import Ascii String ZArith DecimalString.

Open Scope string_scope.

(** ** Package [strings] *)

Module strings.

(** The table [asciiSpace] of [strings.go]: tab, line feed, vertical tab,
    form feed, carriage return and space. *)
Definition asciiSpace (c : ascii) : bool :=
  match c with
  | "009" | "010" | "011" | "012" | "013" | " " => true
  | _ => false
  end%char.

Definition byte (n : N) : ascii := ascii_of_N n.

(** At a byte above 0x7F, [TrimSpace] decodes UTF-8 and asks
    [unicode.IsSpace].  Above U+007F the white space of Unicode (the table
    [White_Space] of [unicode/tables.go]) is U+0085 and U+00A0, two bytes
    each in UTF-8, and U+1680, U+2000 to U+200A, U+2028, U+2029, U+202F,
    U+205F and U+3000, three bytes each.  The decoder accepts the one
    well-formed encoding of a rune and nothing else: any other byte
    sequence decodes, byte by byte, to U+FFFD, which is not white space. *)
Definition White_Space2 : list (ascii * ascii) :=
  [(byte 0xC2, byte 0x85);   (* U+0085, next line *)
   (byte 0xC2, byte 0xA0)].  (* U+00A0, no-break space *)

Definition White_Space3 : list (ascii * ascii * ascii) :=
  [(byte 0xE1, byte 0x9A, byte 0x80);   (* U+1680 *)
   (byte 0xE2, byte 0x80, byte 0x80);   (* U+2000 *)
   (byte 0xE2, byte 0x80, byte 0x81);
   (byte 0xE2, byte 0x80, byte 0x82);
   (byte 0xE2, byte 0x80, byte 0x83);
   (byte 0xE2, byte 0x80, byte 0x84);
   (byte 0xE2, byte 0x80, byte 0x85);
   (byte 0xE2, byte 0x80, byte 0x86);
   (byte 0xE2, byte 0x80, byte 0x87);
   (byte 0xE2, byte 0x80, byte 0x88);
   (byte 0xE2, byte 0x80, byte 0x89);
   (byte 0xE2, byte 0x80, byte 0x8A);   (* U+200A *)
   (byte 0xE2, byte 0x80, byte 0xA8);   (* U+2028 *)
   (byte 0xE2, byte 0x80, byte 0xA9);   (* U+2029 *)
   (byte 0xE2, byte 0x80, byte 0xAF);   (* U+202F *)
   (byte 0xE2, byte 0x81, byte 0x9F);   (* U+205F *)
   (byte 0xE3, byte 0x80, byte 0x80)].  (* U+3000 *)

(** [unicode.IsSpace] of the rune that the two bytes [c d], or the three
    bytes [c d e], encode. *)
Definition IsSpace2 (c d : ascii) : bool :=
  existsb (fun r => Ascii.eqb c r.1 && Ascii.eqb d r.2) White_Space2.

Definition IsSpace3 (c d e : ascii) : bool :=
  existsb (fun r => Ascii.eqb c r.1.1 && Ascii.eqb d r.1.2 && Ascii.eqb e r.2)
          White_Space3.

(** When the first rune of [s] is white space, what follows it. *)
Definition cutSpace (s : string) : option string :=
  match s with
  | String c s1 =>
      if asciiSpace c then Some s1
      else match s1 with
           | String d s2 =>
               if IsSpace2 c d then Some s2
               else match s2 with
                    | String e s3 => if IsSpace3 c d e then Some s3 else None
                    | EmptyString => None
                    end
           | EmptyString => None
           end
  | EmptyString => None
  end.

(** The left end of [TrimSpace]: [start] moves right over the white-space
    runes, in the first loop over [asciiSpace] and, from the first byte
    above 0x7F on, in [TrimLeftFunc(s, unicode.IsSpace)]. *)
Fixpoint trimStart (s : string) : string :=
  match s with
  | String c s1 =>
      if asciiSpace c then trimStart s1
      else match s1 with
           | String d s2 =>
               if IsSpace2 c d then trimStart s2
               else match s2 with
                    | String e s3 => if IsSpace3 c d e then trimStart s3 else s
                    | EmptyString => s
                    end
           | EmptyString => s
           end
  | EmptyString => EmptyString
  end.

(** A string of white-space runes only. *)
Fixpoint isSpaces (s : string) : bool :=
  match s with
  | String c s1 =>
      if asciiSpace c then isSpaces s1
      else match s1 with
           | String d s2 =>
               if IsSpace2 c d then isSpaces s2
               else match s2 with
                    | String e s3 => if IsSpace3 c d e then isSpaces s3 else false
                    | EmptyString => false
                    end
           | EmptyString => false
           end
  | EmptyString => true
  end.

(** The right end of [TrimSpace]: [stop] moves left over the white-space
    runes, in the second loop and in [TrimRightFunc(s, unicode.IsSpace)].
    It stops where the white space that ends the string begins: at the
    first byte from which on there is white space only. *)
Fixpoint trimStop (s : string) : string :=
  match s with
  | String c s' => if isSpaces s then EmptyString else String c (trimStop s')
  | EmptyString => EmptyString
  end.

(** [strings.TrimSpace(s)]: [s[start:stop]]. *)
Definition TrimSpace (s : string) : string := trimStop (trimStart s).

(** [strings.HasPrefix(s, prefix)]. *)
Definition HasPrefix (s prefix : string) : bool := String.prefix prefix s.

(** [strings.Index(s, substr)]: the offset of the first occurrence,
    [None] for Go's [-1]. *)
Fixpoint Index (s substr : string) : option nat :=
  if String.prefix substr s then Some 0
  else match s with
       | String _ s' => S <$> Index s' substr
       | EmptyString => None
       end.

(** [strings.Contains(s, substr)]: [Index(s, substr) >= 0]. *)
Definition Contains (s substr : string) : bool :=
  match Index s substr with Some _ => true | None => false end.

(** Go's slices [s[:i]] and [s[i:]]. *)
Fixpoint slice_to (s : string) (i : nat) {struct i} : string :=
  match i, s with
  | S i', String c s' => String c (slice_to s' i')
  | _, _ => EmptyString
  end.

Fixpoint slice_from (s : string) (i : nat) {struct i} : string :=
  match i, s with
  | S i', String _ s' => slice_from s' i'
  | _, _ => s
  end.

(** [strings.Cut(s, sep)]:
    [if i := Index(s, sep); i >= 0 { return s[:i], s[i+len(sep):], true }
     return s, "", false]. *)
Definition Cut (s sep : string) : string * string * bool :=
  match Index s sep with
  | Some i => (slice_to s i, slice_from s (i + String.length sep), true)
  | None => (s, "", false)
  end.

(** Three kinds of bytes, for the proofs: the continuation bytes of UTF-8
    (0x80 to 0xBF), which start no rune; the ASCII bytes that are not white
    space, such as ['='] and ['#'], which are part of no white-space rune;
    and a string that does not start with a continuation byte. *)
Definition cont (c : ascii) : bool :=
  (128 <=? N_of_ascii c)%N && (N_of_ascii c <? 192)%N.

Definition plain (c : ascii) : bool :=
  (N_of_ascii c <? 128)%N && negb (asciiSpace c).

Definition headOK (s : string) : bool :=
  match s with
  | String d _ => negb (cont d)
  | EmptyString => true
  end.

End strings.

(** ** Packages [unicode] and [utf8]: what the tables above stand for *)

Module unicode.

(** The ranges of [White_Space] in [unicode/tables.go]. *)
Definition White_Space : list (N * N) :=
  [(0x0009, 0x000d); (0x0020, 0x0020); (0x0085, 0x0085); (0x00a0, 0x00a0);
   (0x1680, 0x1680); (0x2000, 0x200a); (0x2028, 0x2029); (0x202f, 0x202f);
   (0x205f, 0x205f); (0x3000, 0x3000)]%N.

(** [unicode.IsSpace(r)]. *)
Definition IsSpace (r : N) : bool :=
  existsb (fun range => (range.1 <=? r)%N && (r <=? range.2)%N) White_Space.

End unicode.

Module utf8.

(** [utf8.AppendRune]: the UTF-8 encoding of the rune [r], which is that
    of U+FFFD for a surrogate. *)
Definition EncodeRune (r : N) : string :=
  let b (n : N) := String (strings.byte n) in
  let x (n : N) := N.lor 0x80 (N.land n 0x3F) in
  if (r <? 0x80)%N then b r ""
  else if (r <? 0x800)%N then b (N.lor 0xC0 (N.shiftr r 6)) (b (x r) "")
  else if (0xD800 <=? r)%N && (r <=? 0xDFFF)%N
  then b 0xEF%N (b 0xBF%N (b 0xBD%N ""))
  else if (r <? 0x10000)%N
  then b (N.lor 0xE0 (N.shiftr r 12)) (b (x (N.shiftr r 6)) (b (x r) ""))
  else b (N.lor 0xF0 (N.shiftr r 18))
         (b (x (N.shiftr r 12)) (b (x (N.shiftr r 6)) (b (x r) ""))).

End utf8.

(** ** Errors

    Go's [error] values.  The four [fmt.Errorf] calls of [Load] are four
    constructors that keep the arguments of the format; [%w] wraps the
    cause.  [errorString] is an error made elsewhere ([os], [bufio],
    [flag], [strconv]), known by its text. *)
Inductive error : Type :=
| errorString (text : string)
| failed_to_open_file (configfile : string) (err : error)
| failed_to_split_line (line : string)
| failed_to_set_flag (name value : string) (err : error)
| failed_to_scan (err : error).

(** [err.Error()]: the text that [fmt.Errorf] makes of its format and
    arguments. *)
Fixpoint Error (e : error) : string :=
  match e with
  | errorString text => text
  | failed_to_open_file configfile err =>
      "failed to open file '" ++ configfile ++ "': " ++ Error err
  | failed_to_split_line line =>
      "failed to split line (expected to find an '='): " ++ line
  | failed_to_set_flag name value err =>
      "failed to set flag '" ++ name ++ "' to value '" ++ value ++ "': " ++ Error err
  | failed_to_scan err => "failed to scan: " ++ Error err
  end.

(** ** The scanner

    [bufio.NewScanner(file)] is used through [Scan], [Text] and [Err] only:
    [Scan] succeeds once per line, [Text] is that line without its end of
    line, and after the last [Scan] the scanner's [Err] tells whether it
    stopped at the end of the file ([None]) or on a failure. *)
Record Scanner : Type := {
  Text : list string;
  Err : option error
}.

(** [os.Open(configfile)]: the error, or the file seen through its
    scanner. *)
Definition FileSystem : Type := string -> error + Scanner.

(** ** The registry: package [flag] as [Load] uses it

    [flag_Set] is [flag.Set(name, value)], with the flag set it mutates
    made explicit.  [flag_Lookup] is how the tests read a flag back:
    [flag.Lookup(name).Value.String()], [None] where [flag.Lookup] returns
    [nil]. *)
Class Registry (R : Type) : Type := {
  flag_Set : string -> string -> R -> R * option error;
  flag_Lookup : string -> R -> option string
}.

(** ** [Load] *)

(** What lines 75 to 88 make of one line, before the registry is involved:
    [continue] ([Skip]), the line of the "failed to split" error
    ([NoSeparator]), or the trimmed [name] and [value] ([Pair]). *)
Inductive entry : Type :=
| Skip
| NoSeparator (line : string)
| Pair (name value : string).

Definition readLine (text : string) : entry :=
  let line := strings.TrimSpace text in
  if (line =? "")%string || strings.HasPrefix line "#" then Skip
  else
    let '(name, value, found) := strings.Cut line "=" in
    if negb found then NoSeparator line
    else Pair (strings.TrimSpace name) (strings.TrimSpace value).

Section Load.
Context {R : Type} `{Registry R}.

(** One turn of the loop (lines 75 to 92): [None] is falling through to
    the next [scanner.Scan()], [Some e] is [return e]. *)
Definition body (text : string) (r : R) : R * option error :=
  match readLine text with
  | Skip => (r, None)
  | NoSeparator line => (r, Some (failed_to_split_line line))
  | Pair name value =>
      match flag_Set name value r with
      | (r', Some err) => (r', Some (failed_to_set_flag name value err))
      | (r', None) => (r', None)
      end
  end.

(** [for scanner.Scan() { ... }] over the lines the scanner delivers. *)
Fixpoint scan (texts : list string) (r : R) : R * option error :=
  match texts with
  | [] => (r, None)
  | text :: rest =>
      match body text r with
      | (r', Some err) => (r', Some err)
      | (r', None) => scan rest r'
      end
  end.

Definition Load (fs : FileSystem) (configfile : string) (r : R)
  : R * option error :=
  match fs configfile with
  | inl err => (r, Some (failed_to_open_file configfile err))
  | inr scanner =>
      match scan (Text scanner) r with
      | (r', Some err) => (r', Some err)
      | (r', None) =>
          match Err scanner with
          | Some err => (r', Some (failed_to_scan err))
          | None => (r', None)
          end
      end
  end.

End Load.

(** ** Package [bufio]: a file's bytes seen through [bufio.ScanLines] *)

Module bufio.

(** [MaxScanTokenSize = 64 * 1024]: the scanner's buffer never grows
    beyond it, and a line that does not fit ends the scan with
    [ErrTooLong]. *)
Definition MaxScanTokenSize : nat := (64 * 1024)%nat.

Definition ErrTooLong : error := errorString "bufio.Scanner: token too long".

(** [dropCR]: a trailing carriage return is not part of the line. *)
Fixpoint dropCR (data : string) : string :=
  match data with
  | String "013" EmptyString => EmptyString
  | String c rest => String c (dropCR rest)
  | EmptyString => EmptyString
  end.

(** The raw lines of [data]: cut after every line feed; what follows the
    last line feed is a line when it is not empty. *)
Fixpoint rawLines (data : string) : list string :=
  match data with
  | EmptyString => []
  | String "010" rest => EmptyString :: rawLines rest
  | String c rest =>
      match rawLines rest with
      | [] => [String c EmptyString]
      | l :: ls => String c l :: ls
      end
  end.

(** The scanner delivers the lines up to the first one that does not fit
    its buffer. *)
Fixpoint deliver (ls : list string) : Scanner :=
  match ls with
  | [] => {| Text := []; Err := None |}
  | l :: ls' =>
      if (String.length l <? MaxScanTokenSize)%nat
      then let s := deliver ls' in
           {| Text := dropCR l :: Text s; Err := Err s |}
      else {| Text := []; Err := Some ErrTooLong |}
  end.

(** [bufio.NewScanner] on a file with the bytes [data] that is read
    without an I/O failure. *)
Definition NewScanner (data : string) : Scanner := deliver (rawLines data).

End bufio.

(** ** Package [strconv]: [ParseInt(s, 0, 64)] and [Itoa] *)

Module strconv.

(** The [Err] of a [*NumError]. *)
Inductive NumError : Type := ErrSyntax | ErrRange.

(** [lower(c)]: [c | ('x' - 'X')]. *)
Definition lower (c : ascii) : N := N.lor (N_of_ascii c) 32.

Definition isDigit (c : ascii) : bool :=
  (48 <=? N_of_ascii c)%N && (N_of_ascii c <=? 57)%N.

Definition isLetter (c : ascii) : bool :=
  (97 <=? lower c)%N && (lower c <=? 122)%N.

(** What the loop of [underscoreOK] saw last: the start of the number
    (['^']), a digit or the base prefix (['0']), an underscore (['_']) or
    something else (['!']). *)
Inductive Saw : Type := saw_start | saw_digit | saw_underscore | saw_other.

Fixpoint underscores (hex : bool) (s : string) (saw : Saw) : bool :=
  match s with
  | EmptyString => match saw with saw_underscore => false | _ => true end
  | String c s' =>
      if isDigit c || (hex && (97 <=? lower c)%N && (lower c <=? 102)%N)
      then underscores hex s' saw_digit
      else if Ascii.eqb c "_"
      then match saw with
           | saw_digit => underscores hex s' saw_underscore
           | _ => false
           end
      else match saw with
           | saw_underscore => false
           | _ => underscores hex s' saw_other
           end
  end.

Definition isPrefixLetter (c : ascii) : bool :=
  (lower c =? 98)%N || (lower c =? 111)%N || (lower c =? 120)%N.

(** [underscoreOK]: an underscore is between two digits, or between the
    base prefix and a digit. *)
Definition underscoreOK (s : string) : bool :=
  let s := match s with
           | String c s' => if Ascii.eqb c "-" || Ascii.eqb c "+" then s' else s
           | EmptyString => s
           end in
  match s with
  | String "0" (String c s') =>
      if isPrefixLetter c then underscores (lower c =? 120)%N s' saw_digit
      else underscores false s saw_start
  | _ => underscores false s saw_start
  end.

Definition maxUint64 : N := 2 ^ 64 - 1.

(** The loop of [ParseUint] over the digits in the base that the prefix
    gave, with 64 bits: [n] is the number so far, [us] whether there was an
    underscore. *)
Fixpoint digits (base : N) (s : string) (n : N) (us : bool)
  : (N * bool) + (N * NumError) :=
  match s with
  | EmptyString => inl (n, us)
  | String c s' =>
      if Ascii.eqb c "_" then digits base s' n true
      else
        let d := if isDigit c then Some (N_of_ascii c - 48)%N
                 else if isLetter c then Some (lower c - 97 + 10)%N
                 else None in
        match d with
        | None => inr (0%N, ErrSyntax)
        | Some d =>
            if (base <=? d)%N then inr (0%N, ErrSyntax)
            else if (maxUint64 / base + 1 <=? n)%N then inr (maxUint64, ErrRange)
            else
              let n' := (n * base)%N in
              let n1 := ((n' + d) mod 2 ^ 64)%N in
              if (n1 <? n')%N || (maxUint64 <? n1)%N then inr (maxUint64, ErrRange)
              else digits base s' n1 us
        end
  end.

(** [ParseUint(s, 0, 64)]: base 10, or the base of the prefix [0b], [0o],
    [0x] or [0]. *)
Definition ParseUint (s : string) : N * option NumError :=
  match s with
  | EmptyString => (0%N, Some ErrSyntax)
  | String c0 rest =>
      let '(base, number) :=
        if Ascii.eqb c0 "0" then
          match rest with
          | String c1 (String c2 rest') =>
              if (lower c1 =? 98)%N then (2%N, String c2 rest')
              else if (lower c1 =? 111)%N then (8%N, String c2 rest')
              else if (lower c1 =? 120)%N then (16%N, String c2 rest')
              else (8%N, rest)
          | _ => (8%N, rest)
          end
        else (10%N, s) in
      match digits base number 0 false with
      | inr (n, e) => (n, Some e)
      | inl (n, us) =>
          if us && negb (underscoreOK s) then (0%N, Some ErrSyntax) else (n, None)
      end
  end.

(** [ParseInt(s, 0, 64)]: the sign, then [ParseUint]; beyond 64 bits the
    nearest number, with [ErrRange]. *)
Definition ParseInt (s : string) : Z * option NumError :=
  match s with
  | EmptyString => (0%Z, Some ErrSyntax)
  | String c0 rest =>
      let '(neg, s') :=
        if Ascii.eqb c0 "+" then (false, rest)
        else if Ascii.eqb c0 "-" then (true, rest)
        else (false, s) in
      match ParseUint s' with
      | (_, Some ErrSyntax) => (0%Z, Some ErrSyntax)
      | (un, _) =>
          let cutoff := (2 ^ 63)%N in
          if negb neg && (cutoff <=? un)%N then (Z.of_N cutoff - 1, Some ErrRange)%Z
          else if neg && (cutoff <? un)%N then (- Z.of_N cutoff, Some ErrRange)%Z
          else (if neg then - Z.of_N un else Z.of_N un, None)%Z
      end
  end.

(** [Itoa(i)]. *)
Definition Itoa (i : Z) : string := NilZero.string_of_int (Z.to_int i).

End strconv.

(** ** Package [flag]: Go's own flag set

    Three of the value kinds of [flag.go]: [stringValue], [boolValue] and
    [intValue].  A [FlagSet] is the map [formal] of the defined flags and
    the set [actual] of the names that were set. *)

Module flag.

Inductive Value : Type :=
| stringValue (s : string)
| boolValue (b : bool)
| intValue (i : Z).

Definition errParse : error := errorString "parse error".

Definition errRange : error := errorString "value out of range".

(** [strconv.ParseBool]. *)
Definition ParseBool (str : string) : option bool :=
  if decide (str ∈ ["1"; "t"; "T"; "true"; "TRUE"; "True"]) then Some true
  else if decide (str ∈ ["0"; "f"; "F"; "false"; "FALSE"; "False"]) then Some false
  else None.

(** [numError]. *)
Definition numError (e : strconv.NumError) : error :=
  match e with
  | strconv.ErrSyntax => errParse
  | strconv.ErrRange => errRange
  end.

(** [Value.Set]:
    [func (s *stringValue) Set(val string) error { *s = stringValue(val); return nil }],
    [func (b *boolValue) Set(s string) error {
       v, err := strconv.ParseBool(s); if err != nil { err = errParse };
       *b = boolValue(v); return err }] and
    [func (i *intValue) Set(s string) error {
       v, err := strconv.ParseInt(s, 0, strconv.IntSize);
       if err != nil { err = numError(err) }; *i = intValue(v); return err }],
    where [v] is [false] or [0] when the parse fails, and the nearest
    number when it is out of range: the flag is assigned to also when [Set]
    returns an error. *)
Definition Value_Set (val : string) (v : Value) : Value * option error :=
  match v with
  | stringValue _ => (stringValue val, None)
  | boolValue _ =>
      match ParseBool val with
      | Some b => (boolValue b, None)
      | None => (boolValue false, Some errParse)
      end
  | intValue _ =>
      let '(i, err) := strconv.ParseInt val in (intValue i, numError <$> err)
  end.

(** [Value.String]; for a boolean, [strconv.FormatBool]; for an integer,
    [strconv.Itoa]. *)
Definition Value_String (v : Value) : string :=
  match v with
  | stringValue s => s
  | boolValue b => if b then "true" else "false"
  | intValue i => strconv.Itoa i
  end.

Record Flag : Type := {
  Name : string;
  Usage : string;
  Value_ : Value;
  DefValue : string
}.

Record FlagSet : Type := {
  formal : gmap string Flag;
  actual : gset string
}.

(** [FlagSet.Var], as [flag.String], [flag.Bool] and [flag.Int] call it. *)
Definition Var (value : Value) (name usage : string) (f : FlagSet) : FlagSet :=
  {| formal := <[name := {| Name := name; Usage := usage; Value_ := value;
                            DefValue := Value_String value |}]> (formal f);
     actual := actual f |}.

Definition String_ (name value usage : string) : FlagSet -> FlagSet :=
  Var (stringValue value) name usage.

Definition Bool (name : string) (value : bool) (usage : string) : FlagSet -> FlagSet :=
  Var (boolValue value) name usage.

Definition Int (name : string) (value : Z) (usage : string) : FlagSet -> FlagSet :=
  Var (intValue value) name usage.

(** The flag set before any flag is defined. *)
Definition CommandLine : FlagSet := {| formal := ∅; actual := ∅ |}.

(** [FlagSet.Set]: an unknown name is an error; otherwise the flag's
    value takes the text, and the name enters [actual] when that
    succeeded. *)
Definition Set_ (name value : string) (f : FlagSet) : FlagSet * option error :=
  match formal f !! name with
  | None => (f, Some (errorString ("no such flag -" ++ name)))
  | Some fl =>
      let '(v, err) := Value_Set value (Value_ fl) in
      let formal' :=
        <[name := {| Name := Name fl; Usage := Usage fl; Value_ := v;
                     DefValue := DefValue fl |}]> (formal f) in
      match err with
      | Some e => ({| formal := formal'; actual := actual f |}, Some e)
      | None => ({| formal := formal'; actual := {[name]} ∪ actual f |}, None)
      end
  end.

(** [FlagSet.Lookup(name)], then [.Value.String()]. *)
Definition Lookup (name : string) (f : FlagSet) : option string :=
  (fun fl => Value_String (Value_ fl)) <$> formal f !! name.

(** The flag that [Set] leaves under [name], and the names that [Set] adds
    to [actual]: the flag set after [Set] is [formal] with the one at
    [name] and [actual] joined with the other. *)
Definition assign (name value : string) (fl : Flag) : Flag :=
  {| Name := Name fl; Usage := Usage fl;
     Value_ := (Value_Set value (Value_ fl)).1; DefValue := DefValue fl |}.

Definition accepted (name value : string) (fl : Flag) : gset string :=
  match (Value_Set value (Value_ fl)).2 with
  | Some _ => ∅
  | None => {[name]}
  end.

(** The kind of a value, which [Set] keeps. *)
Inductive Kind : Type := String_kind | Bool_kind | Int_kind.

Definition kind (v : Value) : Kind :=
  match v with
  | stringValue _ => String_kind
  | boolValue _ => Bool_kind
  | intValue _ => Int_kind
  end.

(** What a flag reads once [Set] has assigned it [value]. *)
Definition rendering (value : string) (fl : Flag) : string :=
  Value_String (Value_Set value (Value_ fl)).1.

End flag.

#[export] Instance FlagSet_Registry : Registry flag.FlagSet := {
  flag_Set := flag.Set_;
  flag_Lookup := flag.Lookup
}.

(** ** A registry that records the calls it receives

    [Logged R] is the registry [R] together with the list of the pairs
    that were passed to [flag_Set], oldest first.  What [Load] forwards to
    the registry is read off that list. *)
Record Logged (R : Type) : Type := {
  inner : R;
  calls : list (string * string)
}.
Arguments inner {R} _.
Arguments calls {R} _.

#[export] Instance Logged_Registry {R : Type} `{Registry R} : Registry (Logged R) := {
  flag_Set name value l :=
    let '(r', err) := flag_Set name value (inner l) in
    ({| inner := r'; calls := calls l ++ [(name, value)] |}, err);
  flag_Lookup name l := flag_Lookup name (inner l)
}.

(** A registry that starts recording now. *)
Definition logging {R : Type} (r : R) : Logged R := {| inner := r; calls := [] |}.

(** ** Flags that are not of a built-in kind *)

(** [flag.Func("config-file", "Configuration file", configfile.Load)], as
    the README and [Example] register it, on top of a flag set of built-in
    kinds.  [Set] on that flag is [fn(value)], here [Load(value)], which
    assigns to the flag set that is being assigned to; the name enters
    [actual] when that returned [nil].  [fn] is the function registered. *)
Definition Func_Set (fn : string -> flag.FlagSet -> flag.FlagSet * option error)
    (name value : string) (f : flag.FlagSet) : flag.FlagSet * option error :=
  if (name =? "config-file")%string then
    match fn value f with
    | (f', Some err) => (f', Some err)
    | (f', None) =>
        ({| flag.formal := flag.formal f';
            flag.actual := {["config-file"]} ∪ flag.actual f' |}, None)
    end
  else flag.Set_ name value f.

(** The flag set with that flag, as a registry.  A file loaded through
    [config-file] may name [config-file] in turn: [depth] is how deep the
    files may nest, which Go bounds by its stack only.  A [funcValue] reads
    back as the empty string. *)
Fixpoint config_file (depth : nat) (fs : FileSystem) : Registry flag.FlagSet :=
  {| flag_Set :=
       Func_Set (match depth with
                 | 0 => fun _ f => (f, Some (errorString "stack overflow"))
                 | S depth' => fun configfile f =>
                     @Load flag.FlagSet (config_file depth' fs) fs configfile f
                 end);
     flag_Lookup name f :=
       if (name =? "config-file")%string then Some "" else flag.Lookup name f |}.

(** A user-defined [flag.Value] that collects, registered with [flag.Var]
    under the name [tag] next to the settings of [R]:
    a list of strings whose [Set] appends its argument to the list and
    returns [nil], and whose [String] joins the list with commas. *)
Record Collecting (R : Type) : Type := {
  others : R;
  tag : list string
}.
Arguments others {R} _.
Arguments tag {R} _.

#[export] Instance Collecting_Registry {R : Type} `{Registry R}
  : Registry (Collecting R) := {
  flag_Set name value c :=
    if (name =? "tag")%string
    then ({| others := others c; tag := tag c ++ [value] |}, None)
    else let '(r', err) := flag_Set name value (others c) in
         ({| others := r'; tag := tag c |}, err);
  flag_Lookup name c :=
    if (name =? "tag")%string then Some (String.concat "," (tag c))
    else flag_Lookup name (others c)
}.

(** ** Vocabulary of the specification *)

(** How often the byte [c] occurs in [s]. *)
Fixpoint count (c : ascii) (s : string) : nat :=
  match s with
  | String x s' => (if ascii_dec c x then 1 else 0) + count c s'
  | EmptyString => 0
  end.

(** A blank line, and a comment line: its first byte after the white space
    is ['#']. *)
Definition blank (text : string) : Prop := strings.isSpaces text = true.

Definition comment (text : string) : Prop :=
  exists w rest, strings.isSpaces w = true /\ text = w ++ String "#" rest.

(** [text'] is [text] with white space added at its ends. *)
Definition padded (text text' : string) : Prop :=
  exists w1 w2, strings.isSpaces w1 = true /\ strings.isSpaces w2 = true /\
                text' = w1 ++ text ++ w2.

(** The pairs that the entry lines among [texts] carry, in file order. *)
Definition pairs (texts : list string) : list (string * string) :=
  omap (fun text => match readLine text with
                    | Pair name value => Some (name, value)
                    | _ => None
                    end) texts.

Arguments pairs : simpl never.

(** [text] is an entry line for the setting [name]. *)
Definition names (name text : string) : Prop :=
  exists value, readLine text = Pair name value.

(** A line that is no error in the registry [r]: blank, a comment, or an
    entry whose pair [r] accepts. *)
Definition acceptable {R : Type} `{Registry R} (r : R) (text : string) : Prop :=
  blank text \/ comment text \/
  exists name value, readLine text = Pair name value /\
                     (flag_Set name value r).2 = None.

(** The scanner of a file with the lines [texts]. *)
Definition file (texts : list string) (err : option error) : Scanner :=
  {| Text := texts; Err := err |}.

(** A line that fits the scanner's buffer. *)
Definition fits (l : string) : Prop :=
  (String.length l < bufio.MaxScanTokenSize)%nat.

(** The registry after a series of [Set] calls, whatever each returned. *)
Definition apply_sets {R : Type} `{Registry R}
    (ops : list (string * string)) (r : R) : R :=
  fold_left (fun r' op => (flag_Set op.1 op.2 r').1) ops r.

(** ** The files and flags of the package's tests and README *)

(** A file system with one file; [os.Open] on another path fails with a
    [*PathError]. *)
Definition one_file (path : string) (sc : Scanner) : FileSystem :=
  fun configfile =>
    if (configfile =? path)%string then inr sc
    else inl (errorString ("open " ++ configfile ++ ": no such file or directory")).

(** A file system with two files. *)
Definition two_files (path1 : string) (sc1 : Scanner) (path2 : string) (sc2 : Scanner)
  : FileSystem :=
  fun configfile =>
    if (configfile =? path1)%string then inr sc1 else one_file path2 sc2 configfile.

Definition LF : string := String "010" "".
Definition TAB : string := String "009" "".
Definition CR : string := String "013" "".

(** U+00A0, the no-break space, and U+3000, the ideographic space. *)
Definition NBSP : string := String (strings.byte 0xC2) (String (strings.byte 0xA0) "").
Definition IDSP : string :=
  String (strings.byte 0xE3) (String (strings.byte 0x80) (String (strings.byte 0x80) "")).

(** [TestLoad] defines the string flags [key1], [key2] and [key3] and the
    integer flag [int_flag]. *)
Definition TestLoad_flags : flag.FlagSet :=
  flag.Int "int_flag" 0 "int flag"
    (flag.String_ "key3" "" "key3 flag"
       (flag.String_ "key2" "" "key2 flag"
          (flag.String_ "key1" "" "key1 flag" flag.CommandLine))).

(** The flags of the README and of [Example]; their [config-file] flag is
    the registry [config_file]. *)
Definition README_flags : flag.FlagSet :=
  flag.Bool "debug" false "Enable debug mode"
    (flag.Int "server-port" 8080 "Server port"
       (flag.String_ "server-host" "localhost" "Server host"
          (flag.String_ "db-url" "localhost:5432" "Database URL" flag.CommandLine))).

(** The raw string literals of [TestLoad]: a line feed, every line behind
    four tabs, and three tabs before the closing quote. *)
Definition indent : string := TAB ++ TAB ++ TAB ++ TAB.

Definition raw (lines : list string) : string :=
  LF ++ String.concat "" (map (fun l => indent ++ l ++ LF) lines) ++ TAB ++ TAB ++ TAB.

(** The bytes of the test "Empty file". *)
Definition Empty_file : string := raw ["# Just a comment"].

(** A temporary file with these bytes, read without an I/O failure. *)
Definition CreateTemp (data : string) : FileSystem :=
  one_file "config_test" (bufio.NewScanner data).

(** The lines of the tests "Invalid line", "Flag overriding", "Empty
    value", "Empty name", "Valid config", "Unknown flag" and "Whitespace
    handling", without their indentation. *)
Definition Invalid_line : list string :=
  ["key1 = value1"; "invalid_line"; "key2 = value2"].

Definition Flag_overriding : list string :=
  ["key1 = value1"; "key1 = value2"; "key1 = value3"].

Definition Empty_value : list string := ["key1 = "; "key2 = value2"].

Definition Empty_name : list string := ["= value1"; "key2 = value2"].

Definition Valid_config : list string :=
  ["key1 = value1"; "key2 = value2"; "# Comment"; "key3 = value3"].

Definition Unknown_flag : list string := ["key1 = value1"; "unknown_flag = value"].

Definition Whitespace_handling : list string :=
  ["  key1    =    value1    "; "key2=value2"; "   key3 = value3   "].

(** What a test looks at after [Load] on its temporary file: the error, and
    the three flags read back. *)
Definition outcome (data : string) : option error * list (option string) :=
  let '(f, err) := Load (CreateTemp data) "config_test" TestLoad_flags in
  (err, map (fun k => flag_Lookup k f) ["key1"; "key2"; "key3"]).

(** The scenario of the specification and of the README: three settings in
    a file, [server-host] in none of its lines. *)
Definition README_conf : list string :=
  ["db-url = example.com:5432"; "server-port = 9090"; "debug = true"].

(** The bytes of the file of [Example], a raw string literal with two tabs
    before every line and one before the closing quote. *)
Definition Example_conf : string :=
  LF ++
  String.concat ""
    (map (fun l => l ++ LF)
       [TAB ++ TAB ++ "# Database configuration";
        TAB ++ TAB ++ "db-url = example.com:5432";
        "";
        TAB ++ TAB ++ "# Server configuration";
        TAB ++ TAB ++ "server-port = 9090";
        "";
        TAB ++ TAB ++ "# Enable debugging";
        TAB ++ TAB ++ "debug = true"]) ++
  TAB.

(** A comment line of 65536 bytes: ['#'] and 65535 times [a]. *)
Fixpoint repeat_byte (c : ascii) (n : nat) : string :=
  match n with
  | 0 => EmptyString
  | S n' => String c (repeat_byte c n')
  end.

Definition long_comment : string :=
  String "#" (repeat_byte "a" (bufio.MaxScanTokenSize - 1)).

(** A file that names another file through [config-file], and that file. *)
Definition app_conf : list string := ["config-file = more.conf"].

Definition more_conf : list string := ["key1 = changed"].

Definition nested_files : FileSystem :=
  two_files "app.conf" (file app_conf None) "more.conf" (file more_conf None).

(** A flag set with a collecting flag [tag] next to the flags of
    [TestLoad]. *)
Definition tagged_flags : Collecting flag.FlagSet :=
  {| others := TestLoad_flags; tag := [] |}.

(** * Facts about the string functions *)

Module string_facts.
Import strings.

Lemma app_cons c s t : String c s ++ t = String c (s ++ t).
Proof. reflexivity. Qed.

Lemma app_nil_l s : "" ++ s = s.
Proof. reflexivity. Qed.

Lemma app_nil_r s : s ++ "" = s.
Proof. induction s as [|c s IH]; [reflexivity|]. rewrite !app_cons. now f_equal. Qed.

Lemma app_assoc s t u : (s ++ t) ++ u = s ++ t ++ u.
Proof. induction s as [|c s IH]; [reflexivity|]. rewrite !app_cons. now f_equal. Qed.

Lemma length_app s t : String.length (s ++ t) = String.length s + String.length t.
Proof. induction s as [|c s IH]; [reflexivity|]. rewrite app_cons. simpl. now rewrite IH. Qed.

(** *** Bytes *)

Lemma IsSpace2_In c d : IsSpace2 c d = true -> In (c, d) White_Space2.
Proof.
  unfold IsSpace2. intros ([a b] & Hin & Heq)%existsb_exists. simpl in Heq.
  apply andb_true_iff in Heq as [->%Ascii.eqb_eq ->%Ascii.eqb_eq]. exact Hin.
Qed.

Lemma IsSpace3_In c d e : IsSpace3 c d e = true -> In (c, d, e) White_Space3.
Proof.
  unfold IsSpace3. intros ([[a b] x] & Hin & Heq)%existsb_exists. simpl in Heq.
  apply andb_true_iff in Heq as [Heq ->%Ascii.eqb_eq].
  apply andb_true_iff in Heq as [->%Ascii.eqb_eq ->%Ascii.eqb_eq]. exact Hin.
Qed.

Lemma IsSpace2_bytes c d :
  IsSpace2 c d = true ->
  asciiSpace c = false /\ cont c = false /\ plain c = false /\
  cont d = true.
Proof.
  intros Hin%IsSpace2_In. simpl in Hin.
  repeat (destruct Hin as [[= <- <-]|Hin]; [vm_compute; auto|]). destruct Hin.
Qed.

Lemma IsSpace3_bytes c d e :
  IsSpace3 c d e = true ->
  asciiSpace c = false /\ cont c = false /\ plain c = false /\
  cont d = true /\ cont e = true.
Proof.
  intros Hin%IsSpace3_In. simpl in Hin.
  repeat (destruct Hin as [[= <- <- <-]|Hin]; [vm_compute; auto 6|]). destruct Hin.
Qed.

Lemma asciiSpace_bytes c : asciiSpace c = true -> cont c = false /\ plain c = false.
Proof.
  destruct c as [[] [] [] [] [] [] [] []]; try discriminate; intros _; vm_compute; auto.
Qed.

Lemma plain_bytes c : plain c = true -> asciiSpace c = false /\ cont c = false.
Proof.
  destruct c as [[] [] [] [] [] [] [] []]; vm_compute; auto; discriminate.
Qed.

Lemma cont_asciiSpace c : cont c = true -> asciiSpace c = false.
Proof.
  intros Hc. destruct (asciiSpace c) eqn:E; [|reflexivity].
  apply asciiSpace_bytes in E as [E _]. congruence.
Qed.

(** A byte that is not a continuation byte is the second or third byte of
    no white-space rune; a continuation byte or a plain byte is the first
    byte of none. *)
Lemma IsSpace2_second c d : cont d = false -> IsSpace2 c d = false.
Proof.
  intros Hd. destruct (IsSpace2 c d) eqn:E; [|reflexivity].
  apply IsSpace2_bytes in E as (_ & _ & _ & E). congruence.
Qed.

Lemma IsSpace3_second c d e : cont d = false -> IsSpace3 c d e = false.
Proof.
  intros Hd. destruct (IsSpace3 c d e) eqn:E; [|reflexivity].
  apply IsSpace3_bytes in E as (_ & _ & _ & E & _). congruence.
Qed.

Lemma IsSpace3_third c d e : cont e = false -> IsSpace3 c d e = false.
Proof.
  intros Hd. destruct (IsSpace3 c d e) eqn:E; [|reflexivity].
  apply IsSpace3_bytes in E as (_ & _ & _ & _ & E). congruence.
Qed.

Lemma IsSpace2_first c d : cont c = true \/ plain c = true -> IsSpace2 c d = false.
Proof.
  intros Hc. destruct (IsSpace2 c d) eqn:E; [|reflexivity].
  apply IsSpace2_bytes in E as (_ & E1 & E2 & _). destruct Hc; congruence.
Qed.

Lemma IsSpace3_first c d e : cont c = true \/ plain c = true -> IsSpace3 c d e = false.
Proof.
  intros Hc. destruct (IsSpace3 c d e) eqn:E; [|reflexivity].
  apply IsSpace3_bytes in E as (_ & E1 & E2 & _). destruct Hc; congruence.
Qed.

(** *** [cutSpace] *)

Lemma cutSpace_first c s :
  cont c = true \/ plain c = true -> cutSpace (String c s) = None.
Proof.
  intros Hc. unfold cutSpace.
  assert (asciiSpace c = false) as ->.
  { destruct Hc as [Hc|Hc]; [now apply cont_asciiSpace|now apply plain_bytes]. }
  destruct s as [|d s]; [reflexivity|]. rewrite IsSpace2_first by assumption.
  destruct s as [|e s]; [reflexivity|]. now rewrite IsSpace3_first.
Qed.

Lemma cutSpace_inv s r :
  cutSpace s = Some r ->
  (exists c, s = String c r /\ asciiSpace c = true) \/
  (exists c d, s = String c (String d r) /\ asciiSpace c = false /\
               IsSpace2 c d = true) \/
  (exists c d e, s = String c (String d (String e r)) /\ asciiSpace c = false /\
                 IsSpace2 c d = false /\ IsSpace3 c d e = true).
Proof.
  unfold cutSpace. destruct s as [|c s]; [discriminate|].
  destruct (asciiSpace c) eqn:Hc; [intros [= <-]; left; now exists c|].
  destruct s as [|d s]; [discriminate|].
  destruct (IsSpace2 c d) eqn:H2; [intros [= <-]; right; left; now exists c, d|].
  destruct s as [|e s]; [discriminate|].
  destruct (IsSpace3 c d e) eqn:H3; [|discriminate].
  intros [= <-]. right; right. now exists c, d, e.
Qed.

Lemma cutSpace_app s r y : cutSpace s = Some r -> cutSpace (s ++ y) = Some (r ++ y).
Proof.
  intros [(c & -> & Hc)|[(c & d & -> & Hc & H2)|(c & d & e & -> & Hc & H2 & H3)]]%cutSpace_inv;
    rewrite ?app_cons; unfold cutSpace; rewrite Hc; [reflexivity| |].
  - now rewrite H2.
  - now rewrite H2, H3.
Qed.

Lemma cutSpace_length s r : cutSpace s = Some r -> String.length r < String.length s.
Proof.
  intros [(c & -> & _)|[(c & d & -> & _)|(c & d & e & -> & _)]]%cutSpace_inv; simpl; lia.
Qed.

Lemma cutSpace_headOK s r : cutSpace s = Some r -> headOK s = true.
Proof.
  intros [(c & -> & Hc)|[(c & d & -> & Hc & H2)|(c & d & e & -> & Hc & H2 & H3)]]%cutSpace_inv;
    simpl.
  - now apply asciiSpace_bytes in Hc as [-> _].
  - now apply IsSpace2_bytes in H2 as (_ & -> & _).
  - now apply IsSpace3_bytes in H3 as (_ & -> & _).
Qed.

(** What follows a string that does not start with a white-space rune
    makes it start with none, unless it starts with a continuation byte. *)
Lemma cutSpace_None_app x y :
  cutSpace x = None -> x <> "" -> headOK y = true -> cutSpace (x ++ y) = None.
Proof.
  intros Hx Hne Hy. destruct x as [|c x]; [contradiction|]. clear Hne.
  unfold cutSpace in *. rewrite ?app_cons.
  destruct (asciiSpace c); [discriminate|].
  destruct x as [|d x].
  - rewrite app_nil_l. destruct y as [|d y]; [reflexivity|]. simpl in Hy.
    apply negb_true_iff in Hy. rewrite IsSpace2_second by assumption.
    destruct y as [|e y]; [reflexivity|]. now rewrite IsSpace3_second.
  - rewrite ?app_cons. destruct (IsSpace2 c d); [discriminate|].
    destruct x as [|e x].
    + rewrite app_nil_l. destruct y as [|e y]; [reflexivity|]. simpl in Hy.
      apply negb_true_iff in Hy. now rewrite IsSpace3_third.
    + rewrite ?app_cons. now destruct (IsSpace3 c d e).
Qed.

Lemma trimStart_eq s :
  trimStart s = match cutSpace s with Some r => trimStart r | None => s end.
Proof.
  destruct s as [|c s]; [reflexivity|]. simpl.
  destruct (asciiSpace c); [reflexivity|].
  destruct s as [|d s]; [reflexivity|].
  destruct (IsSpace2 c d); [reflexivity|].
  destruct s as [|e s]; [reflexivity|].
  now destruct (IsSpace3 c d e).
Qed.

Lemma isSpaces_eq s :
  isSpaces s = match s with
               | EmptyString => true
               | _ => match cutSpace s with Some r => isSpaces r | None => false end
               end.
Proof.
  destruct s as [|c s]; [reflexivity|]. simpl.
  destruct (asciiSpace c); [reflexivity|].
  destruct s as [|d s]; [reflexivity|].
  destruct (IsSpace2 c d); [reflexivity|].
  destruct s as [|e s]; [reflexivity|].
  now destruct (IsSpace3 c d e).
Qed.

Lemma isSpaces_cut s r : cutSpace s = Some r -> isSpaces s = isSpaces r.
Proof. intros E. rewrite (isSpaces_eq s), E. destruct s; [discriminate|reflexivity]. Qed.

Lemma isSpaces_None s : cutSpace s = None -> s <> "" -> isSpaces s = false.
Proof. intros E Hne. rewrite (isSpaces_eq s), E. now destruct s. Qed.

Lemma trimStart_cut s r : cutSpace s = Some r -> trimStart s = trimStart r.
Proof. intros E. now rewrite (trimStart_eq s), E. Qed.

Lemma trimStart_None s : cutSpace s = None -> trimStart s = s.
Proof. intros E. now rewrite (trimStart_eq s), E. Qed.

(** Induction along the white-space runes at the head of a string. *)
Lemma space_ind (P : string -> Prop) :
  P "" ->
  (forall s, s <> "" -> cutSpace s = None -> P s) ->
  (forall s r, cutSpace s = Some r -> P r -> P s) ->
  forall s, P s.
Proof.
  intros H0 HN HS.
  assert (Hall : forall n s, String.length s < n -> P s).
  { induction n as [|n IH]; intros s Hlen; [lia|].
    destruct (cutSpace s) as [r|] eqn:E.
    - apply (HS s r E). apply IH. apply cutSpace_length in E. lia.
    - destruct s as [|c s]; [exact H0|]. now apply HN. }
  intros s. apply (Hall (S (String.length s))). lia.
Qed.

Lemma isSpaces_headOK w : isSpaces w = true -> headOK w = true.
Proof.
  destruct (cutSpace w) as [r|] eqn:E.
  - intros _. now apply (cutSpace_headOK w r).
  - destruct w as [|c w]; [reflexivity|]. now rewrite isSpaces_None.
Qed.

(** *** White space *)

Lemma isSpaces_app w x : isSpaces w = true -> isSpaces (w ++ x) = isSpaces x.
Proof.
  induction w as [| w Hne E | w r E IH] using space_ind; intros Hw.
  - reflexivity.
  - now rewrite isSpaces_None in Hw.
  - rewrite (isSpaces_cut _ _ E) in Hw.
    rewrite (isSpaces_cut _ _ (cutSpace_app _ _ x E)). auto.
Qed.

Lemma isSpaces_app_r x w : isSpaces w = true -> isSpaces (x ++ w) = isSpaces x.
Proof.
  intros Hw. induction x as [| x Hne E | x r E IH] using space_ind.
  - exact Hw.
  - rewrite (isSpaces_None x) by assumption. apply isSpaces_None.
    + apply cutSpace_None_app; [assumption..|]. now apply isSpaces_headOK.
    + now destruct x.
  - rewrite (isSpaces_cut _ _ E). now rewrite (isSpaces_cut _ _ (cutSpace_app _ _ w E)).
Qed.

Lemma isSpaces_app_true a b :
  isSpaces a = true -> isSpaces b = true -> isSpaces (a ++ b) = true.
Proof. intros Ha Hb. now rewrite isSpaces_app. Qed.

Lemma isSpaces_plain x c b : plain c = true -> isSpaces (x ++ String c b) = false.
Proof.
  intros Hc.
  assert (Hh : headOK (String c b) = true).
  { simpl. now apply plain_bytes in Hc as [_ ->]. }
  induction x as [| x Hne E | x r E IH] using space_ind.
  - apply isSpaces_None; [|discriminate]. apply cutSpace_first. now right.
  - apply isSpaces_None; [now apply cutSpace_None_app|now destruct x].
  - now rewrite (isSpaces_cut _ _ (cutSpace_app _ _ _ E)).
Qed.

(** *** [trimStart] *)

Lemma trimStart_spaces w s : isSpaces w = true -> trimStart (w ++ s) = trimStart s.
Proof.
  induction w as [| w Hne E | w r E IH] using space_ind; intros Hw.
  - reflexivity.
  - now rewrite isSpaces_None in Hw.
  - rewrite (isSpaces_cut _ _ E) in Hw.
    rewrite (trimStart_cut _ _ (cutSpace_app _ _ s E)). auto.
Qed.

Lemma trimStart_all_spaces w : isSpaces w = true -> trimStart w = "".
Proof. intros Hw. rewrite <- (app_nil_r w). now rewrite trimStart_spaces. Qed.

Lemma trimStart_app_plain a c b :
  plain c = true -> trimStart (a ++ String c b) = trimStart a ++ String c b.
Proof.
  intros Hc.
  assert (Hh : headOK (String c b) = true).
  { simpl. now apply plain_bytes in Hc as [_ ->]. }
  induction a as [| a Hne E | a r E IH] using space_ind.
  - apply trimStart_None, cutSpace_first. now right.
  - rewrite (trimStart_None a) by assumption.
    apply trimStart_None. now apply cutSpace_None_app.
  - now rewrite (trimStart_cut _ _ E), (trimStart_cut _ _ (cutSpace_app _ _ _ E)).
Qed.

Lemma cutSpace_split s r :
  cutSpace s = Some r ->
  exists t, s = t ++ r /\ isSpaces t = true.
Proof.
  intros [(c & -> & Hc)|[(c & d & -> & Hc & H2)|(c & d & e & -> & Hc & H2 & H3)]]%cutSpace_inv.
  - exists (String c ""). split; [reflexivity|]. simpl. now rewrite Hc.
  - exists (String c (String d "")). split; [reflexivity|]. simpl. now rewrite Hc, H2.
  - exists (String c (String d (String e ""))). split; [reflexivity|].
    simpl. now rewrite Hc, H2, H3.
Qed.

Lemma trimStart_split s : exists w, isSpaces w = true /\ s = w ++ trimStart s.
Proof.
  induction s as [| s Hne E | s r E (w & Hw & IH)] using space_ind.
  - now exists "".
  - exists "". now rewrite trimStart_None.
  - destruct (cutSpace_split _ _ E) as (t & -> & Ht).
    exists (t ++ w). split; [now apply isSpaces_app_true|].
    rewrite (trimStart_cut _ _ E), app_assoc. now f_equal.
Qed.

Lemma trimStart_head s : cutSpace (trimStart s) = None.
Proof.
  induction s as [| s Hne E | s r E IH] using space_ind.
  - reflexivity.
  - now rewrite trimStart_None.
  - now rewrite (trimStart_cut _ _ E).
Qed.

Lemma trimStart_idem s : trimStart (trimStart s) = trimStart s.
Proof. apply trimStart_None, trimStart_head. Qed.

(** *** [trimStop] *)

Lemma trimStop_cons c s :
  trimStop (String c s) = if isSpaces (String c s) then "" else String c (trimStop s).
Proof. reflexivity. Qed.

Lemma trimStop_all_spaces w : isSpaces w = true -> trimStop w = "".
Proof. destruct w as [|c w]; [reflexivity|]. intros Hw. now rewrite trimStop_cons, Hw. Qed.

Lemma trimStop_spaces s w : isSpaces w = true -> trimStop (s ++ w) = trimStop s.
Proof.
  intros Hw. induction s as [|c s IH].
  - now apply trimStop_all_spaces.
  - rewrite app_cons, !trimStop_cons, <- app_cons, isSpaces_app_r by assumption.
    now rewrite IH.
Qed.

Lemma trimStop_app_plain a c b :
  plain c = true -> trimStop (a ++ String c b) = a ++ String c (trimStop b).
Proof.
  intros Hc. induction a as [|x a IH].
  - pose proof (isSpaces_plain "" c b Hc) as Hs. rewrite app_nil_l in Hs.
    now rewrite !app_nil_l, trimStop_cons, Hs.
  - rewrite !app_cons, trimStop_cons, <- app_cons.
    now rewrite (isSpaces_plain (String x a) c b Hc), IH.
Qed.

Lemma trimStop_split s : exists w, isSpaces w = true /\ s = trimStop s ++ w.
Proof.
  induction s as [|c s (w & Hw & IH)].
  - now exists "".
  - rewrite trimStop_cons. destruct (isSpaces (String c s)) eqn:E.
    + now exists (String c s).
    + exists w. split; [assumption|]. rewrite app_cons. now f_equal.
Qed.

Lemma isSpaces_trimStop s : isSpaces (trimStop s) = isSpaces s.
Proof.
  destruct (trimStop_split s) as (w & Hw & E). rewrite E at 2.
  now rewrite isSpaces_app_r.
Qed.

Lemma trimStop_idem s : trimStop (trimStop s) = trimStop s.
Proof.
  induction s as [|c s IH]; [reflexivity|].
  rewrite trimStop_cons. destruct (isSpaces (String c s)) eqn:E; [reflexivity|].
  rewrite trimStop_cons, IH.
  assert (isSpaces (String c (trimStop s)) = false) as ->; [|reflexivity].
  rewrite <- E, <- (isSpaces_trimStop (String c s)), trimStop_cons. now rewrite E.
Qed.

(** Behind white space, [trimStop] works on what follows. *)
Lemma trimStop_spaces_l w x :
  isSpaces w = true -> isSpaces x = false -> trimStop (w ++ x) = w ++ trimStop x.
Proof.
  intros Hw Hx. induction w as [| w Hne E | w r E IH] using space_ind.
  - reflexivity.
  - now rewrite isSpaces_None in Hw.
  - rewrite (isSpaces_cut _ _ E) in Hw. specialize (IH Hw).
    assert (Hr : isSpaces (r ++ x) = false) by now rewrite isSpaces_app.
    assert (Hcont : forall d y, cont d = true -> isSpaces (String d y) = false).
    { intros d y Hd. apply isSpaces_None; [|discriminate]. apply cutSpace_first. now left. }
    destruct (cutSpace_inv _ _ E)
      as [(c & -> & Hc)|[(c & d & -> & Hc & H2)|(c & d & e & -> & Hc & H2 & H3)]];
      rewrite ?app_cons.
    + rewrite trimStop_cons, IH. simpl isSpaces. now rewrite Hc, Hr.
    + apply IsSpace2_bytes in H2 as H2'. destruct H2' as (_ & _ & _ & Hd).
      rewrite trimStop_cons. simpl isSpaces at 1. rewrite Hc, H2, Hr.
      rewrite trimStop_cons, Hcont by assumption. now rewrite IH.
    + apply IsSpace3_bytes in H3 as H3'. destruct H3' as (_ & _ & _ & Hd & He).
      rewrite trimStop_cons. simpl isSpaces at 1. rewrite Hc, H2, H3, Hr.
      rewrite trimStop_cons, Hcont by assumption.
      rewrite trimStop_cons, Hcont by assumption. now rewrite IH.
Qed.

Lemma cutSpace_trimStop s : cutSpace s = None -> trimStart (trimStop s) = trimStop s.
Proof.
  intros E. apply trimStart_None.
  destruct (cutSpace (trimStop s)) as [r|] eqn:E'; [|reflexivity].
  destruct (trimStop_split s) as (w & Hw & Es).
  rewrite Es, (cutSpace_app _ _ w E') in E. discriminate.
Qed.

Lemma trimStart_trimStop s : trimStart (trimStop s) = trimStop (trimStart s).
Proof.
  destruct (trimStart_split s) as (w & Hw & E).
  pose proof (trimStart_head s) as Hh.
  destruct (isSpaces (trimStart s)) eqn:Hx.
  - rewrite (trimStop_all_spaces (trimStart s)) by assumption.
    rewrite trimStop_all_spaces; [reflexivity|].
    rewrite E. now apply isSpaces_app_true.
  - rewrite E at 1. rewrite trimStop_spaces_l by assumption.
    rewrite trimStart_spaces by assumption. now apply cutSpace_trimStop.
Qed.

(** *** [TrimSpace] *)

Lemma TrimSpace_split s :
  exists w1 w2, isSpaces w1 = true /\ isSpaces w2 = true /\ s = w1 ++ TrimSpace s ++ w2.
Proof.
  destruct (trimStart_split s) as (w1 & H1 & E1).
  destruct (trimStop_split (trimStart s)) as (w2 & H2 & E2).
  exists w1, w2. repeat split; try assumption.
  unfold TrimSpace. now rewrite <- E2.
Qed.

Lemma TrimSpace_spaces w : isSpaces w = true -> TrimSpace w = "".
Proof. intros Hw. unfold TrimSpace. now rewrite trimStart_all_spaces. Qed.

Lemma TrimSpace_empty_spaces s : TrimSpace s = "" -> isSpaces s = true.
Proof.
  intros E. destruct (TrimSpace_split s) as (w1 & w2 & H1 & H2 & Es).
  rewrite Es, E, app_nil_l. now apply isSpaces_app_true.
Qed.

Lemma TrimSpace_trimStart s : TrimSpace (trimStart s) = TrimSpace s.
Proof. unfold TrimSpace. now rewrite trimStart_idem. Qed.

Lemma TrimSpace_trimStop s : TrimSpace (trimStop s) = TrimSpace s.
Proof. unfold TrimSpace. now rewrite trimStart_trimStop, trimStop_idem. Qed.

Lemma TrimSpace_idem s : TrimSpace (TrimSpace s) = TrimSpace s.
Proof. unfold TrimSpace at 2. now rewrite TrimSpace_trimStop, TrimSpace_trimStart. Qed.

Lemma TrimSpace_pad w1 s w2 :
  isSpaces w1 = true -> isSpaces w2 = true -> TrimSpace (w1 ++ s ++ w2) = TrimSpace s.
Proof.
  intros H1 H2. unfold TrimSpace. rewrite trimStart_spaces by assumption.
  rewrite <- !trimStart_trimStop. now rewrite trimStop_spaces.
Qed.

Lemma TrimSpace_around a c b :
  plain c = true ->
  TrimSpace (a ++ String c b) = trimStart a ++ String c (trimStop b).
Proof.
  intros Hc. unfold TrimSpace.
  now rewrite trimStart_app_plain, trimStop_app_plain.
Qed.

(** The stripped string starts with no white space, and with the byte
    that follows the leading white space. *)
Lemma TrimSpace_head s : cutSpace (TrimSpace s) = None.
Proof.
  unfold TrimSpace. rewrite <- trimStart_trimStop. apply trimStart_head.
Qed.

Lemma trimStop_first x t :
  cutSpace (String x t) = None -> exists t', trimStop (String x t) = String x t'.
Proof.
  intros E. rewrite trimStop_cons, isSpaces_None by (assumption || discriminate).
  now exists (trimStop t).
Qed.

(** *** White space is Unicode's

    What [cutSpace] takes from the head of a string is the UTF-8 encoding
    of a rune that [unicode.IsSpace] accepts, and it takes every such
    encoding. *)

Lemma IsSpace_runes r :
  unicode.IsSpace r = true ->
  In r [0x09; 0x0A; 0x0B; 0x0C; 0x0D; 0x20; 0x85; 0xA0; 0x1680;
        0x2000; 0x2001; 0x2002; 0x2003; 0x2004; 0x2005; 0x2006; 0x2007;
        0x2008; 0x2009; 0x200A; 0x2028; 0x2029; 0x202F; 0x205F; 0x3000]%N.
Proof.
  unfold unicode.IsSpace. intros ([lo hi] & Hin & Hr)%existsb_exists.
  apply andb_true_iff in Hr as [Hlo%N.leb_le Hhi%N.leb_le]. simpl in *.
  repeat (destruct Hin as [[= <- <-]|Hin]; [lia|]). destruct Hin.
Qed.

Lemma cutSpace_rune s r :
  cutSpace s = Some r <->
  exists rune, unicode.IsSpace rune = true /\ s = utf8.EncodeRune rune ++ r.
Proof.
  assert (Hrune : forall t,
            In t (map utf8.EncodeRune
                    [0x09; 0x0A; 0x0B; 0x0C; 0x0D; 0x20; 0x85; 0xA0; 0x1680;
                     0x2000; 0x2001; 0x2002; 0x2003; 0x2004; 0x2005; 0x2006;
                     0x2007; 0x2008; 0x2009; 0x200A; 0x2028; 0x2029; 0x202F;
                     0x205F; 0x3000]%N) ->
            exists rune, unicode.IsSpace rune = true /\ t ++ r = utf8.EncodeRune rune ++ r).
  { intros t (rune & <- & Hin)%in_map_iff. exists rune. split; [|reflexivity].
    simpl in Hin. repeat (destruct Hin as [<-|Hin]; [reflexivity|]). destruct Hin. }
  split.
  - intros [(c & -> & Hc)|[(c & d & -> & Hc & H2)|(c & d & e & -> & Hc & H2 & H3)]]%cutSpace_inv.
    + apply (Hrune (String c "")).
      destruct c as [[] [] [] [] [] [] [] []]; try discriminate; vm_compute; tauto.
    + apply (Hrune (String c (String d ""))).
      apply IsSpace2_In in H2. simpl in H2.
      repeat (destruct H2 as [[= <- <-]|H2]; [vm_compute; tauto|]). destruct H2.
    + apply (Hrune (String c (String d (String e "")))).
      apply IsSpace3_In in H3. simpl in H3.
      repeat (destruct H3 as [[= <- <- <-]|H3]; [vm_compute; tauto|]). destruct H3.
  - intros (rune & Hr%IsSpace_runes & ->). simpl in Hr.
    repeat (destruct Hr as [<-|Hr]; [reflexivity|]). destruct Hr.
Qed.

(** [TrimSpace s] is what is between the white space at the two ends of
    [s]: it starts with no white-space rune and ends with none. *)
Lemma trimStop_length s : String.length (trimStop s) <= String.length s.
Proof.
  destruct (trimStop_split s) as (w & _ & E). rewrite E at 2. rewrite length_app. lia.
Qed.

Lemma TrimSpace_tail s u w : TrimSpace s = u ++ w -> isSpaces w = true -> w = "".
Proof.
  intros E Hw.
  assert (Hid : trimStop (u ++ w) = u ++ w).
  { rewrite <- E. unfold TrimSpace. apply trimStop_idem. }
  rewrite trimStop_spaces in Hid by assumption.
  pose proof (trimStop_length u) as Hlen. rewrite Hid, length_app in Hlen.
  destruct w; [reflexivity|simpl in Hlen; lia].
Qed.

Lemma TrimSpace_spec s t :
  TrimSpace s = t <->
  exists w1 w2,
    isSpaces w1 = true /\ isSpaces w2 = true /\ s = w1 ++ t ++ w2 /\
    cutSpace t = None /\
    (forall u w, t = u ++ w -> isSpaces w = true -> w = "").
Proof.
  split.
  - intros <-. destruct (TrimSpace_split s) as (w1 & w2 & H1 & H2 & E).
    exists w1, w2. repeat split; try assumption; [apply TrimSpace_head|].
    apply TrimSpace_tail.
  - intros (w1 & w2 & H1 & H2 & -> & Hhead & Htail).
    rewrite TrimSpace_pad by assumption. unfold TrimSpace.
    rewrite trimStart_None by assumption.
    destruct (trimStop_split t) as (w & Hw & E).
    rewrite (Htail _ _ E Hw), app_nil_r in E. now symmetry.
Qed.

(** *** [HasPrefix], [Index], [Contains] and [Cut] for a one-byte pattern *)

Lemma HasPrefix_cons x s t c :
  HasPrefix (String x s) (String c "") = HasPrefix (String x t) (String c "").
Proof. unfold HasPrefix. simpl. destruct (ascii_dec c x); [now destruct s, t|reflexivity]. Qed.

Lemma HasPrefix_same c s : HasPrefix (String c s) (String c "") = true.
Proof. unfold HasPrefix. simpl. destruct (ascii_dec c c); [now destruct s|congruence]. Qed.

Lemma HasPrefix_other c x s : c <> x -> HasPrefix (String x s) (String c "") = false.
Proof. intros Hne. unfold HasPrefix. simpl. now destruct (ascii_dec c x). Qed.

Lemma HasPrefix_TrimSpace s c :
  HasPrefix (TrimSpace s) (String c "") = HasPrefix (trimStart s) (String c "").
Proof.
  unfold TrimSpace. pose proof (trimStart_head s) as Hh.
  destruct (trimStart s) as [|x t]; [reflexivity|].
  destruct (trimStop_first x t Hh) as (t' & ->). apply HasPrefix_cons.
Qed.

Lemma Index_cons x s c :
  Index (String x s) (String c "") =
  if ascii_dec c x then Some 0 else S <$> Index s (String c "").
Proof. simpl. destruct (ascii_dec c x); [now destruct s|reflexivity]. Qed.

Lemma Contains_cons x s c :
  Contains (String x s) (String c "") =
  if ascii_dec c x then true else Contains s (String c "").
Proof.
  unfold Contains. rewrite Index_cons. destruct (ascii_dec c x); [reflexivity|].
  now destruct (Index s (String c "")).
Qed.

Lemma Contains_app a b c :
  Contains (a ++ b) (String c "") = Contains a (String c "") || Contains b (String c "").
Proof.
  induction a as [|x a IH]; [reflexivity|].
  rewrite ?app_cons, !Contains_cons. now destruct (ascii_dec c x).
Qed.

Lemma Contains_split s c :
  Contains s (String c "") = true ->
  exists a b, s = a ++ String c b /\ Contains a (String c "") = false.
Proof.
  induction s as [|x s IH]; [discriminate|].
  rewrite Contains_cons. destruct (ascii_dec c x) as [->|Hne].
  - intros _. now exists "", s.
  - intros (a & b & -> & Ha)%IH. exists (String x a), b. split; [reflexivity|].
    rewrite Contains_cons. now destruct (ascii_dec c x).
Qed.

Lemma Contains_spaces w c :
  plain c = true -> isSpaces w = true -> Contains w (String c "") = false.
Proof.
  intros Hc Hw. destruct (Contains w (String c "")) eqn:E; [|reflexivity].
  apply Contains_split in E as (a & b & -> & _).
  now rewrite isSpaces_plain in Hw.
Qed.

Lemma Contains_TrimSpace s c :
  plain c = true -> Contains (TrimSpace s) (String c "") = Contains s (String c "").
Proof.
  intros Hc. destruct (TrimSpace_split s) as (w1 & w2 & H1 & H2 & E).
  rewrite E at 2. rewrite !Contains_app.
  rewrite (Contains_spaces w1), (Contains_spaces w2) by assumption.
  now rewrite orb_false_r.
Qed.

Lemma Cut_first a b c :
  Contains a (String c "") = false ->
  Cut (a ++ String c b) (String c "") = (a, b, true).
Proof.
  unfold Cut. induction a as [|x a IH].
  - intros _. rewrite ?app_nil_l, Index_cons.
    destruct (ascii_dec c c); [reflexivity|congruence].
  - rewrite Contains_cons, ?app_cons, Index_cons.
    destruct (ascii_dec c x); [discriminate|]. intros Ha. specialize (IH Ha).
    destruct (Index (a ++ String c b) (String c "")) as [i|]; [|discriminate].
    simpl in *. congruence.
Qed.

Lemma count_app c s t : count c (s ++ t) = count c s + count c t.
Proof.
  induction s as [|x s IH]; [reflexivity|].
  rewrite ?app_cons. simpl. rewrite IH. lia.
Qed.

Lemma count_0 c s : Contains s (String c "") = false -> count c s = 0.
Proof.
  induction s as [|x s IH]; [reflexivity|].
  rewrite Contains_cons. simpl. destruct (ascii_dec c x); [discriminate|auto].
Qed.

Lemma count_spaces c w : plain c = true -> isSpaces w = true -> count c w = 0.
Proof. intros Hc Hw. now apply count_0, Contains_spaces. Qed.

Lemma count_TrimSpace c s : plain c = true -> count c (TrimSpace s) = count c s.
Proof.
  intros Hc. destruct (TrimSpace_split s) as (w1 & w2 & H1 & H2 & E).
  rewrite E at 2. rewrite !count_app.
  rewrite (count_spaces c w1), (count_spaces c w2) by assumption. lia.
Qed.

Lemma Cut_none s c :
  Contains s (String c "") = false -> Cut s (String c "") = (s, "", false).
Proof. unfold Contains, Cut. now destruct (Index s (String c "")). Qed.

End string_facts.


(** * Facts about [readLine] *)

Section readLine_facts.
Import strings string_facts.

(** A line of white space is skipped. *)
Lemma readLine_blank text : isSpaces text = true -> readLine text = Skip.
Proof. intros Hw. unfold readLine. now rewrite TrimSpace_spaces. Qed.

(** A line whose first byte after the white space is ['#'] is skipped. *)
Lemma readLine_comment w rest :
  isSpaces w = true -> readLine (w ++ String "#" rest) = Skip.
Proof.
  intros Hw. unfold readLine.
  rewrite TrimSpace_around by reflexivity.
  rewrite trimStart_all_spaces by assumption.
  rewrite app_nil_l, HasPrefix_same. reflexivity.
Qed.

Lemma readLine_blank_or_comment text : blank text \/ comment text -> readLine text = Skip.
Proof.
  intros [Hb|(w & rest & Hw & ->)]; [now apply readLine_blank|now apply readLine_comment].
Qed.

(** A line that is neither, without ['=']. *)
Lemma readLine_NoSeparator text :
  TrimSpace text <> "" ->
  HasPrefix (TrimSpace text) "#" = false ->
  Contains text "=" = false ->
  readLine text = NoSeparator (TrimSpace text).
Proof.
  intros Hne Hc Hs. unfold readLine.
  apply String.eqb_neq in Hne. rewrite Hne, Hc. simpl.
  rewrite Cut_none; [reflexivity|]. now rewrite Contains_TrimSpace.
Qed.

(** A line with ['='], cut at the first one: what is before it and what is
    after it are trimmed on their own. *)
Lemma readLine_Pair a b :
  Contains a "=" = false ->
  HasPrefix (TrimSpace a) "#" = false ->
  readLine (a ++ String "=" b) = Pair (TrimSpace a) (TrimSpace b).
Proof.
  intros Ha Hc. unfold readLine.
  rewrite TrimSpace_around by reflexivity.
  rewrite HasPrefix_TrimSpace in Hc.
  assert (Hcut : Contains (trimStart a) "=" = false).
  { destruct (trimStart_split a) as (w & Hw & E). rewrite E, Contains_app in Ha.
    now apply orb_false_iff in Ha. }
  rewrite Cut_first by assumption. simpl negb. cbv iota.
  rewrite TrimSpace_trimStart, TrimSpace_trimStop.
  destruct (trimStart a) as [|x t]; [reflexivity|].
  rewrite app_cons, (HasPrefix_cons _ _ t), Hc. reflexivity.
Qed.

(** A name and a value with white space around them and an ['='] between
    them. *)
Lemma readLine_padded w1 name w2 w3 value w4 :
  isSpaces w1 = true -> isSpaces w2 = true ->
  isSpaces w3 = true -> isSpaces w4 = true ->
  TrimSpace name = name -> TrimSpace value = value ->
  Contains name "=" = false -> HasPrefix name "#" = false ->
  readLine (w1 ++ name ++ w2 ++ "=" ++ w3 ++ value ++ w4) = Pair name value.
Proof.
  intros H1 H2 H3 H4 Hn Hv Hs Hc.
  replace (w1 ++ name ++ w2 ++ "=" ++ w3 ++ value ++ w4)
    with ((w1 ++ name ++ w2) ++ String "=" (w3 ++ value ++ w4))
    by now rewrite !app_assoc.
  rewrite <- Hn at 2. rewrite <- Hv at 2.
  rewrite <- (TrimSpace_pad w1 name w2), <- (TrimSpace_pad w3 value w4) by assumption.
  apply readLine_Pair.
  - rewrite !Contains_app, Hs.
    now rewrite (Contains_spaces w1), (Contains_spaces w2).
  - now rewrite TrimSpace_pad, Hn.
Qed.

(** Every line that is not skipped and has an ['='] is an entry. *)
Lemma readLine_entry text :
  TrimSpace text <> "" ->
  HasPrefix (TrimSpace text) "#" = false ->
  Contains text "=" = true ->
  exists a b, TrimSpace text = a ++ String "=" b /\ Contains a "=" = false /\
              readLine text = Pair (TrimSpace a) (TrimSpace b).
Proof.
  intros Hne Hc Hs. rewrite <- (Contains_TrimSpace text) in Hs by reflexivity.
  apply Contains_split in Hs as (a & b & E & Ha). exists a, b.
  repeat split; try assumption. unfold readLine.
  apply String.eqb_neq in Hne. rewrite Hne, Hc. simpl.
  now rewrite E, Cut_first.
Qed.

(** An entry line is white space, the name, white space, ['='], white
    space, the value and white space, and nothing else. *)
Lemma readLine_Pair_shape text name value :
  readLine text = Pair name value ->
  exists u1 u2 u3 u4,
    isSpaces u1 = true /\ isSpaces u2 = true /\
    isSpaces u3 = true /\ isSpaces u4 = true /\
    Contains name "=" = false /\
    text = u1 ++ name ++ u2 ++ String "=" (u3 ++ value ++ u4).
Proof.
  unfold readLine. destruct (String.eqb_spec (TrimSpace text) "") as [E|Hne]; [discriminate|].
  simpl. destruct (HasPrefix (TrimSpace text) "#") eqn:Hc; [discriminate|].
  destruct (Contains (TrimSpace text) "=") eqn:Hs;
    [|rewrite Cut_none by assumption; discriminate].
  apply Contains_split in Hs as (a & b & E & Ha).
  rewrite E, Cut_first by assumption. simpl. intros [= <- <-].
  destruct (TrimSpace_split text) as (w1 & w2 & H1 & H2 & Et).
  destruct (TrimSpace_split a) as (a1 & a2 & Ha1 & Ha2 & Ea).
  destruct (TrimSpace_split b) as (b1 & b2 & Hb1 & Hb2 & Eb).
  exists (w1 ++ a1), a2, b1, (b2 ++ w2).
  split; [now apply isSpaces_app_true|]. split; [assumption|].
  split; [assumption|]. split; [now apply isSpaces_app_true|]. split.
  - rewrite Ea, !Contains_app in Ha.
    apply orb_false_iff in Ha as [_ Ha]. now apply orb_false_iff in Ha as [Ha _].
  - rewrite Et, E. rewrite Ea at 1. rewrite Eb at 1.
    rewrite !app_assoc. rewrite ?app_cons. now rewrite !app_assoc.
Qed.

(** The three outcomes, read backwards. *)
Lemma readLine_Skip_inv text : readLine text = Skip -> blank text \/ comment text.
Proof.
  unfold readLine. destruct (String.eqb_spec (TrimSpace text) "") as [E|_].
  { intros _. left. now apply TrimSpace_empty_spaces. }
  simpl. destruct (HasPrefix (TrimSpace text) "#") eqn:Hc.
  - intros _. right.
    destruct (TrimSpace_split text) as (w1 & w2 & H1 & H2 & E).
    destruct (TrimSpace text) as [|x t]; [discriminate|].
    destruct (ascii_dec "#" x) as [<-|Hne];
      [|rewrite HasPrefix_other in Hc by assumption; discriminate].
    exists w1, (t ++ w2). split; [assumption|]. now rewrite E.
  - destruct (Cut (TrimSpace text) "=") as [[n v] []]; discriminate.
Qed.

Lemma readLine_NoSeparator_inv text line :
  readLine text = NoSeparator line ->
  line = TrimSpace text /\ line <> "" /\ HasPrefix line "#" = false /\
  Contains text "=" = false.
Proof.
  unfold readLine. destruct (String.eqb_spec (TrimSpace text) "") as [E|Hne]; [discriminate|].
  simpl. destruct (HasPrefix (TrimSpace text) "#") eqn:Hc; [discriminate|].
  destruct (Contains (TrimSpace text) "=") eqn:Hs.
  - apply Contains_split in Hs as (a & b & E & Ha).
    rewrite E, Cut_first by assumption. discriminate.
  - rewrite Cut_none by assumption. simpl. intros [= <-].
    rewrite Contains_TrimSpace in Hs by reflexivity. auto.
Qed.

Lemma readLine_Pair_inv text name value :
  readLine text = Pair name value ->
  exists a b, TrimSpace text = a ++ String "=" b /\ Contains a "=" = false /\
              HasPrefix (TrimSpace text) "#" = false /\
              name = TrimSpace a /\ value = TrimSpace b.
Proof.
  unfold readLine. destruct (String.eqb_spec (TrimSpace text) "") as [E|Hne]; [discriminate|].
  simpl. destruct (HasPrefix (TrimSpace text) "#") eqn:Hc; [discriminate|].
  destruct (Contains (TrimSpace text) "=") eqn:Hs.
  - apply Contains_split in Hs as (a & b & E & Ha).
    rewrite E, Cut_first by assumption. simpl. intros [= <- <-].
    exists a, b. rewrite <- E. auto.
  - rewrite Cut_none by assumption. discriminate.
Qed.

Lemma readLine_Pair_Contains text name value :
  readLine text = Pair name value -> Contains text "=" = true.
Proof.
  intros (a & b & E & _)%readLine_Pair_inv.
  rewrite <- (Contains_TrimSpace text) by reflexivity.
  rewrite E, Contains_app, Contains_cons.
  destruct (ascii_dec "=" "="); [apply orb_true_r|congruence].
Qed.

(** The name and the value of an entry are trimmed, and the name has no
    ['='] and does not start with ['#']. *)
Lemma readLine_Pair_clean text name value :
  readLine text = Pair name value ->
  TrimSpace name = name /\ TrimSpace value = value /\
  Contains name "=" = false /\ HasPrefix name "#" = false.
Proof.
  intros (a & b & E & Ha & Hc & -> & ->)%readLine_Pair_inv.
  rewrite !TrimSpace_idem, Contains_TrimSpace by reflexivity.
  repeat split; try assumption.
  rewrite HasPrefix_TrimSpace.
  pose proof (TrimSpace_head text) as Hh. rewrite E in Hh.
  destruct a as [|x t]; [reflexivity|].
  assert (Hx : cutSpace (String x t) = None).
  { destruct (cutSpace (String x t)) as [r|] eqn:E'; [|reflexivity].
    rewrite (cutSpace_app _ _ _ E') in Hh. discriminate. }
  rewrite trimStart_None by assumption.
  rewrite E, app_cons in Hc. now rewrite (HasPrefix_cons _ _ t) in Hc.
Qed.

(** White space around a line changes nothing. *)
Lemma readLine_padding w1 text w2 :
  isSpaces w1 = true -> isSpaces w2 = true ->
  readLine (w1 ++ text ++ w2) = readLine text.
Proof. intros H1 H2. unfold readLine. now rewrite TrimSpace_pad. Qed.

Lemma readLine_padded_line text text' : padded text text' -> readLine text' = readLine text.
Proof. intros (w1 & w2 & H1 & H2 & ->). now apply readLine_padding. Qed.

End readLine_facts.

(** * Facts about the scanner *)

Module bufio_facts.
Import strings string_facts bufio.

(** What [dropCR] drops is white space. *)
Lemma dropCR_spec l : exists w, isSpaces w = true /\ l = dropCR l ++ w.
Proof.
  induction l as [|c l (w & Hw & IH)]; [now exists ""|].
  destruct l as [|d l].
  - destruct (ascii_dec c "013") as [->|Hne].
    + now exists CR.
    + exists "". split; [reflexivity|].
      destruct c as [[] [] [] [] [] [] [] []]; try reflexivity. congruence.
  - exists w. split; [assumption|].
    replace (dropCR (String c (String d l))) with (String c (dropCR (String d l)))
      by (destruct c as [[] [] [] [] [] [] [] []]; reflexivity).
    rewrite app_cons. now f_equal.
Qed.

Lemma readLine_dropCR l : readLine (dropCR l) = readLine l.
Proof.
  destruct (dropCR_spec l) as (w & Hw & E). rewrite E at 2.
  symmetry. now apply (readLine_padding "" (dropCR l) w).
Qed.

Lemma deliver_cons l ls :
  deliver (l :: ls) =
  if (String.length l <? MaxScanTokenSize)%nat
  then {| Text := dropCR l :: Text (deliver ls); Err := Err (deliver ls) |}
  else {| Text := []; Err := Some ErrTooLong |}.
Proof. reflexivity. Qed.

(** The scanner delivers the lines that fit its buffer, and goes on. *)
Lemma deliver_app lsA lsB :
  Forall fits lsA ->
  deliver (lsA ++ lsB) =
  {| Text := map dropCR lsA ++ Text (deliver lsB); Err := Err (deliver lsB) |}.
Proof.
  induction 1 as [|l lsA Hl _ IH]; [simpl; now destruct (deliver lsB)|].
  rewrite <- app_comm_cons, deliver_cons, IH.
  apply Nat.ltb_lt in Hl. now rewrite Hl.
Qed.

Lemma deliver_fits ls :
  Forall fits ls -> deliver ls = {| Text := map dropCR ls; Err := None |}.
Proof.
  intros Hall. rewrite <- (List.app_nil_r ls) at 1.
  rewrite (deliver_app ls []) by assumption.
  simpl. now rewrite List.app_nil_r.
Qed.

(** A line of the file is delivered, or the scanner stops with an error. *)
Lemma deliver_In l ls :
  In l ls -> In (dropCR l) (Text (deliver ls)) \/ Err (deliver ls) <> None.
Proof.
  induction ls as [|x ls IH]; [intros []|].
  rewrite deliver_cons. destruct (String.length x <? MaxScanTokenSize)%nat; simpl.
  - intros [->|Hin]; [left; now left|].
    destruct (IH Hin) as [Ht|He]; [left; now right|now right].
  - intros _. now right.
Qed.

(** The raw lines of two files put end to end, the first ending in a line
    feed. *)
Lemma rawLines_LF x : rawLines (x ++ LF) <> [].
Proof.
  destruct x as [|c x]; [discriminate|]. rewrite app_cons. simpl.
  destruct c as [[] [] [] [] [] [] [] []]; try discriminate;
    now destruct (rawLines (x ++ LF)).
Qed.

Lemma rawLines_app x b :
  rawLines ((x ++ LF) ++ b) = (rawLines (x ++ LF) ++ rawLines b)%list.
Proof.
  induction x as [|c x IH]; [reflexivity|].
  rewrite !app_cons. pose proof (rawLines_LF x) as Hne.
  destruct (ascii_dec c "010") as [->|Hc].
  - simpl. now rewrite IH.
  - assert (Hstep : forall y, rawLines (String c y) =
                      match rawLines y with
                      | [] => [String c ""]
                      | l :: ls => String c l :: ls
                      end).
    { intros y. destruct c as [[] [] [] [] [] [] [] []]; try reflexivity. congruence. }
    rewrite !Hstep, IH. now destruct (rawLines (x ++ LF)).
Qed.

(** Padding makes a line longer and leaves what [readLine] makes of it,
    with or without its carriage return. *)
Lemma padded_fits l l' : padded l l' -> fits l' -> fits l.
Proof.
  intros (w1 & w2 & _ & _ & ->). unfold fits. rewrite !length_app. lia.
Qed.

Lemma padded_dropCR ls ls' :
  Forall2 padded ls ls' ->
  Forall2 (fun t t' => readLine t' = readLine t) (map dropCR ls) (map dropCR ls').
Proof.
  induction 1 as [|l l' ls ls' Hl _ IH]; simpl; constructor; [|exact IH].
  rewrite !readLine_dropCR. now apply readLine_padded_line.
Qed.

(** A line of [n] bytes without a line feed. *)
Lemma length_repeat_byte c n : String.length (repeat_byte c n) = n.
Proof. induction n as [|n IH]; simpl; [reflexivity|now rewrite IH]. Qed.

Lemma rawLines_repeat_a n :
  rawLines (repeat_byte "a" n) =
  match n with 0 => [] | S _ => [repeat_byte "a" n] end.
Proof.
  induction n as [|n IH]; [reflexivity|].
  change (rawLines (repeat_byte "a" (S n)))
    with (match rawLines (repeat_byte "a" n) with
          | [] => [String "a" ""]
          | l :: ls => String "a" l :: ls
          end).
  rewrite IH. now destruct n.
Qed.

Lemma rawLines_long_comment : rawLines long_comment = [long_comment].
Proof.
  unfold long_comment.
  change (rawLines (String "#" (repeat_byte "a" (MaxScanTokenSize - 1))))
    with (match rawLines (repeat_byte "a" (MaxScanTokenSize - 1)) with
          | [] => [String "#" ""]
          | l :: ls => String "#" l :: ls
          end).
  rewrite rawLines_repeat_a. now destruct (MaxScanTokenSize - 1).
Qed.

Lemma length_long_comment : String.length long_comment = MaxScanTokenSize.
Proof.
  unfold long_comment. change (S (String.length (repeat_byte "a" (MaxScanTokenSize - 1))) = MaxScanTokenSize).
  rewrite length_repeat_byte. unfold MaxScanTokenSize. lia.
Qed.

(** A file of one line that does not fit the buffer. *)
Lemma NewScanner_too_long l :
  rawLines l = [l] -> String.length l = MaxScanTokenSize ->
  NewScanner l = {| Text := []; Err := Some ErrTooLong |}.
Proof.
  intros Hraw Hlen. unfold NewScanner. rewrite Hraw, deliver_cons, Hlen.
  now rewrite Nat.ltb_irrefl.
Qed.

End bufio_facts.

(** * Facts about the loop and about [Load] *)

Open Scope list_scope.

Section loop_facts.
Context {R : Type} `{Registry R}.

Lemma scan_app pre post (r : R) :
  scan (pre ++ post) r =
  match scan pre r with
  | (r', Some e) => (r', Some e)
  | (r', None) => scan post r'
  end.
Proof.
  revert r. induction pre as [|t pre IH]; intros r; simpl; [reflexivity|].
  destruct (body t r) as [r' [e|]]; [reflexivity|apply IH].
Qed.

(** When the lines before [text] raise no error, the loop reaches
    [text]. *)
Lemma scan_reached pre text post (r : R) :
  (scan pre r).2 = None ->
  scan (pre ++ text :: post) r =
  match body text (scan pre r).1 with
  | (r', Some e) => (r', Some e)
  | (r', None) => scan post r'
  end.
Proof.
  intros Hpre. rewrite scan_app. destruct (scan pre r) as [r1 [e|]]; [discriminate|].
  reflexivity.
Qed.

Lemma Load_open fs configfile sc (r : R) :
  fs configfile = inr sc ->
  Load fs configfile r =
  match scan (Text sc) r with
  | (r', Some e) => (r', Some e)
  | (r', None) => (r', failed_to_scan <$> Err sc)
  end.
Proof.
  intros Hfs. unfold Load. rewrite Hfs.
  destruct (scan (Text sc) r) as [r' [e|]]; [reflexivity|]. now destruct (Err sc).
Qed.

Lemma Load_not_open fs configfile e (r : R) :
  fs configfile = inl e ->
  Load fs configfile r = (r, Some (failed_to_open_file configfile e)).
Proof. intros Hfs. unfold Load. now rewrite Hfs. Qed.

(** A scan that ends in an error makes [Load] return that error with the
    registry as the scan left it. *)
Lemma Load_scan_error fs configfile sc (r : R) e :
  fs configfile = inr sc -> (scan (Text sc) r).2 = Some e ->
  Load fs configfile r = scan (Text sc) r.
Proof.
  intros Hfs He. rewrite (Load_open _ _ _ _ Hfs).
  destruct (scan (Text sc) r) as [r' [e'|]]; [reflexivity|discriminate].
Qed.

Lemma Load_success_inv fs configfile sc (r : R) :
  fs configfile = inr sc -> (Load fs configfile r).2 = None ->
  (scan (Text sc) r).2 = None /\ Err sc = None /\
  (Load fs configfile r).1 = (scan (Text sc) r).1.
Proof.
  intros Hfs. rewrite (Load_open _ _ _ _ Hfs).
  destruct (scan (Text sc) r) as [r' [e|]]; [discriminate|].
  destruct (Err sc); [discriminate|]. auto.
Qed.

(** *** The pairs of a list of lines *)

Lemma pairs_app pre post : pairs (pre ++ post) = pairs pre ++ pairs post.
Proof. apply omap_app. Qed.

Lemma pairs_cons text texts : pairs (text :: texts) = pairs [text] ++ pairs texts.
Proof. apply (pairs_app [text]). Qed.

Lemma pairs_Pair text name value :
  readLine text = Pair name value -> pairs [text] = [(name, value)].
Proof. intros E. unfold pairs. simpl. now rewrite E. Qed.

Lemma pairs_other text :
  (forall name value, readLine text <> Pair name value) -> pairs [text] = [].
Proof. intros E. unfold pairs. simpl. destruct (readLine text); [easy..|]. now destruct (E name value). Qed.

(** *** The recording registry *)

(** A turn of the loop on a recording registry is that turn on the
    registry inside, with the line's pair, if it has one, added to the
    record. *)
Lemma body_logged text (l : Logged R) :
  body text l =
  ({| inner := (body text (inner l)).1; calls := calls l ++ pairs [text] |},
   (body text (inner l)).2).
Proof.
  destruct l as [r log]. unfold body, pairs. simpl.
  destruct (readLine text) as [|line|name value]; simpl.
  - now rewrite app_nil_r.
  - now rewrite app_nil_r.
  - destruct (flag_Set name value r) as [r' [e|]]; reflexivity.
Qed.

(** A scan that ends in no error has forwarded the pairs of all its
    lines. *)
Lemma scan_logged_ok texts (l : Logged R) :
  (scan texts (inner l)).2 = None ->
  scan texts l =
  ({| inner := (scan texts (inner l)).1; calls := calls l ++ pairs texts |}, None).
Proof.
  revert l. induction texts as [|t texts IH]; intros [r log]; simpl.
  - intros _. now rewrite app_nil_r.
  - rewrite body_logged. simpl.
    destruct (body t r) as [r' [e|]] eqn:Hb; simpl; [discriminate|].
    intros Hok. rewrite IH by exact Hok. simpl.
    now rewrite (pairs_cons t texts), List.app_assoc.
Qed.

(** Recording changes neither the registry inside nor the error. *)
Lemma scan_logged_inner texts (l : Logged R) :
  inner (scan texts l).1 = (scan texts (inner l)).1 /\
  (scan texts l).2 = (scan texts (inner l)).2.
Proof.
  revert l. induction texts as [|t texts IH]; intros [r log]; simpl; [auto|].
  rewrite body_logged. simpl.
  destruct (body t r) as [r' [e|]] eqn:Hb; simpl; [auto|]. apply IH.
Qed.

(** Whatever happens, the record grows by a prefix of the file's pairs. *)
Lemma scan_logged_prefix texts (l : Logged R) :
  exists done, calls (scan texts l).1 = calls l ++ done /\ done `prefix_of` pairs texts.
Proof.
  revert l. induction texts as [|t texts IH]; intros [r log]; simpl.
  - exists []. now rewrite app_nil_r.
  - rewrite body_logged. simpl. rewrite (pairs_cons t texts).
    destruct (body t r) as [r' [e|]] eqn:Hb; simpl.
    + exists (pairs [t]). split; [reflexivity|]. now apply prefix_app_r.
    + destruct (IH {| inner := r'; calls := log ++ pairs [t] |}) as (k & -> & Hk).
      simpl. exists (pairs [t] ++ k). rewrite List.app_assoc. split; [reflexivity|].
      now apply prefix_app.
Qed.

End loop_facts.

Section Load_facts.
Context {R : Type} `{Registry R}.
Import strings string_facts.

Lemma Load_fst fs configfile sc (r : R) :
  fs configfile = inr sc -> (Load fs configfile r).1 = (scan (Text sc) r).1.
Proof.
  intros Hfs. rewrite (Load_open _ _ _ _ Hfs).
  now destruct (scan (Text sc) r) as [r' [e|]].
Qed.

(** The loop stops at the first line whose turn returns an error. *)
Lemma Load_stops_at fs configfile pre text post err (r : R) e :
  fs configfile = inr (file (pre ++ text :: post) err) ->
  (scan pre r).2 = None ->
  (body text (scan pre r).1).2 = Some e ->
  Load fs configfile r = ((body text (scan pre r).1).1, Some e).
Proof.
  intros Hfs Hpre He. rewrite (Load_open _ _ _ _ Hfs). simpl.
  rewrite scan_reached by assumption.
  destruct (body text (scan pre r).1) as [r' [e'|]]; simpl in *; congruence.
Qed.

(** A line that the loop reaches and that does not fail hands the loop
    over to the lines after it. *)
Lemma Load_continues fs fs' configfile pre text post err (r : R) :
  fs configfile = inr (file (pre ++ text :: post) err) ->
  fs' configfile = inr (file post err) ->
  (scan pre r).2 = None ->
  (body text (scan pre r).1).2 = None ->
  Load fs configfile r = Load fs' configfile (body text (scan pre r).1).1.
Proof.
  intros Hfs Hfs' Hpre Hb.
  rewrite (Load_open _ _ _ _ Hfs), (Load_open _ _ _ _ Hfs'). simpl.
  rewrite scan_reached by assumption.
  destruct (body text (scan pre r).1) as [r' [e'|]]; simpl in *; [discriminate|].
  reflexivity.
Qed.

(** The turn of the loop on each kind of line. *)
Lemma body_Skip text (r : R) : readLine text = Skip -> body text r = (r, None).
Proof. intros E. unfold body. now rewrite E. Qed.

Lemma body_NoSeparator text line (r : R) :
  readLine text = NoSeparator line ->
  body text r = (r, Some (failed_to_split_line line)).
Proof. intros E. unfold body. now rewrite E. Qed.

Lemma body_Pair text name value (r : R) :
  readLine text = Pair name value ->
  body text r = ((flag_Set name value r).1,
                 failed_to_set_flag name value <$> (flag_Set name value r).2).
Proof.
  intros E. unfold body. rewrite E.
  now destruct (flag_Set name value r) as [r' [e|]].
Qed.

(** [Load] on a file whose last line, which the loop reaches, is an
    entry. *)
Lemma Load_last_line fs configfile pre text err (r : R) name value :
  fs configfile = inr (file (pre ++ [text]) err) ->
  (scan pre r).2 = None ->
  readLine text = Pair name value ->
  Load fs configfile r =
  ((flag_Set name value (scan pre r).1).1,
   match (flag_Set name value (scan pre r).1).2 with
   | Some cause => Some (failed_to_set_flag name value cause)
   | None => failed_to_scan <$> err
   end).
Proof.
  intros Hfs Hpre E. rewrite (Load_open _ _ _ _ Hfs). simpl.
  rewrite scan_reached by assumption. rewrite (body_Pair _ _ _ _ E).
  now destruct (flag_Set name value (scan pre r).1) as [r' [e|]].
Qed.

End Load_facts.

Section Load_logged_facts.
Context {R : Type} `{Registry R}.

(** What has been forwarded when the loop is done with a line that it
    reached. *)
Lemma scan_logged_reached pre text (r : R) :
  (scan pre r).2 = None ->
  body text (scan pre (logging r)).1 =
  ({| inner := (body text (scan pre r).1).1; calls := pairs (pre ++ [text]) |},
   (body text (scan pre r).1).2).
Proof.
  intros Hpre. rewrite (scan_logged_ok pre (logging r)) by exact Hpre.
  rewrite body_logged. simpl. now rewrite pairs_app.
Qed.

Lemma Load_logged_stops_at fs configfile pre text post err (r : R) e :
  fs configfile = inr (file (pre ++ text :: post) err) ->
  (scan pre r).2 = None ->
  (body text (scan pre r).1).2 = Some e ->
  calls (Load fs configfile (logging r)).1 = pairs (pre ++ [text]).
Proof.
  intros Hfs Hpre He.
  assert (Hpre' : (scan pre (logging r)).2 = None).
  { now rewrite (proj2 (scan_logged_inner pre (logging r))). }
  rewrite (Load_stops_at fs configfile pre text post err (logging r) e Hfs Hpre').
  - now rewrite scan_logged_reached.
  - now rewrite scan_logged_reached.
Qed.

Lemma Load_logged_reached fs configfile pre text post err (r : R) :
  fs configfile = inr (file (pre ++ text :: post) err) ->
  (scan pre r).2 = None ->
  pairs (pre ++ [text]) `prefix_of` calls (Load fs configfile (logging r)).1.
Proof.
  intros Hfs Hpre.
  assert (Hpre' : (scan pre (logging r)).2 = None).
  { now rewrite (proj2 (scan_logged_inner pre (logging r))). }
  rewrite (Load_fst _ _ _ _ Hfs). simpl. rewrite scan_reached by assumption.
  rewrite scan_logged_reached by assumption.
  destruct (body text (scan pre r).1) as [r' [e|]]; simpl; [reflexivity|].
  destruct (scan_logged_prefix post
              {| inner := r'; calls := pairs (pre ++ [text]) |}) as (k & -> & _).
  simpl. now apply prefix_app_r.
Qed.

(** Recording changes nothing for [Load] either. *)
Lemma Load_logged_inner fs configfile (l : Logged R) :
  inner (Load fs configfile l).1 = (Load fs configfile (inner l)).1 /\
  (Load fs configfile l).2 = (Load fs configfile (inner l)).2.
Proof.
  unfold Load. destruct (fs configfile) as [e|sc]; [auto|].
  destruct (scan_logged_inner (Text sc) l) as [Hi He].
  destruct (scan (Text sc) l) as [l' [e|]], (scan (Text sc) (inner l)) as [r' [e'|]];
    simpl in *; try discriminate; subst; auto.
  destruct (Err sc); auto.
Qed.

End Load_logged_facts.

Section scan_facts.
Context {R : Type} `{Registry R}.
Import strings string_facts.

Lemma scan_all_Skip texts (r : R) :
  Forall (fun t => readLine t = Skip) texts -> scan texts r = (r, None).
Proof.
  induction 1 as [|t texts Ht _ IH]; simpl; [reflexivity|].
  now rewrite (body_Skip t r Ht).
Qed.

Lemma scan_all_skipped texts (r : R) :
  Forall (fun t => blank t \/ comment t) texts -> scan texts r = (r, None).
Proof.
  intros Hall. apply scan_all_Skip.
  eapply Forall_impl; [exact Hall|]. apply readLine_blank_or_comment.
Qed.

Lemma scan_empty_name texts text (r : R) value :
  (forall v r', flag_Lookup "" r' = None -> (flag_Set "" v r').2 <> None) ->
  (forall n v r', flag_Lookup "" r' = None ->
                  flag_Lookup "" (flag_Set n v r').1 = None) ->
  In text texts -> readLine text = Pair "" value ->
  flag_Lookup "" r = None ->
  (scan texts r).2 <> None.
Proof.
  intros Hunknown Hkeep Hin E. revert r.
  induction texts as [|t texts IH]; intros r Hr; [destruct Hin|].
  simpl. destruct (body t r) as [r' [e|]] eqn:Hb; [discriminate|].
  destruct Hin as [->|Hin].
  - rewrite (body_Pair _ _ _ r E) in Hb. injection Hb as _ Hb.
    destruct (flag_Set "" value r).2 eqn:Hs; [discriminate|].
    now destruct (Hunknown value r Hr).
  - apply IH; [assumption|]. unfold body in Hb.
    destruct (readLine t) as [|line|n v]; try congruence.
    specialize (Hkeep n v r Hr).
    destruct (flag_Set n v r) as [r'' [e|]]; simpl in *; congruence.
Qed.

Lemma scan_frame texts m (r : R) :
  (forall n v r', m <> n -> flag_Lookup m (flag_Set n v r').1 = flag_Lookup m r') ->
  Forall (fun t => ~ names m t) texts ->
  flag_Lookup m (scan texts r).1 = flag_Lookup m r.
Proof.
  intros Hframe Hall. revert r.
  induction Hall as [|t texts Ht _ IH]; intros r; simpl; [reflexivity|].
  assert (Hb : flag_Lookup m (body t r).1 = flag_Lookup m r).
  { unfold body. destruct (readLine t) as [|line|n v] eqn:E; try reflexivity.
    assert (m <> n) by (intros ->; apply Ht; now exists v).
    rewrite <- (Hframe n v r) by assumption.
    now destruct (flag_Set n v r) as [r' [e|]]. }
  destruct (body t r) as [r' [e|]]; [exact Hb|]. now rewrite IH.
Qed.

(** After [Load], a setting that no later line names reads as the [Set]
    call of its line left it, where [Set] changes no other setting. *)
Lemma Load_reads_assignment fs configfile pre text post err (r : R) name value :
  (forall n v r', name <> n -> flag_Lookup name (flag_Set n v r').1 = flag_Lookup name r') ->
  fs configfile = inr (file (pre ++ text :: post) err) ->
  (scan pre r).2 = None ->
  readLine text = Pair name value ->
  Forall (fun t => ~ names name t) post ->
  flag_Lookup name (Load fs configfile r).1 =
  flag_Lookup name (flag_Set name value (scan pre r).1).1.
Proof.
  intros Hframe Hfs Hpre E Hpost. rewrite (Load_fst _ _ _ _ Hfs). simpl.
  rewrite scan_reached by assumption. rewrite (body_Pair _ _ _ _ E).
  destruct (flag_Set name value (scan pre r).1) as [r' [e|]]; simpl; [reflexivity|].
  now apply scan_frame.
Qed.

(** A loop that ends in an error stopped at a line it reached. *)
Lemma scan_error_inv texts (r : R) e :
  (scan texts r).2 = Some e ->
  exists pre text post,
    texts = pre ++ text :: post /\ (scan pre r).2 = None /\
    body text (scan pre r).1 = ((scan texts r).1, Some e).
Proof.
  revert r. induction texts as [|t texts IH]; intros r; simpl; [discriminate|].
  destruct (body t r) as [r' [e'|]] eqn:Hb; simpl.
  - intros [= <-]. exists [], t, texts. simpl. now rewrite Hb.
  - intros He. destruct (IH r' He) as (pre & text & post & -> & Hpre & Hbody).
    exists (t :: pre), text, post. simpl. now rewrite Hb.
Qed.

Lemma pairs_In name value texts :
  In (name, value) (pairs texts) ->
  exists text, In text texts /\ readLine text = Pair name value.
Proof.
  induction texts as [|t texts IH]; [intros []|].
  rewrite pairs_cons. intros [Hin|Hin]%in_app_or.
  - exists t. split; [now left|]. unfold pairs in Hin. simpl in Hin.
    destruct (readLine t) as [|line|n v]; simpl in Hin; [destruct Hin..|].
    destruct Hin as [[= -> ->]|[]]. reflexivity.
  - destruct (IH Hin) as (text & Ht & E). exists text. split; [now right|exact E].
Qed.

Lemma apply_sets_app ops ops' (r : R) :
  apply_sets (ops ++ ops') r = apply_sets ops' (apply_sets ops r).
Proof. apply fold_left_app. Qed.

(** The loop makes the [Set] calls of its lines, in order, until one
    fails. *)
Lemma scan_apply texts (r : R) :
  exists upto, upto `prefix_of` pairs texts /\ (scan texts r).1 = apply_sets upto r /\
               ((scan texts r).2 = None -> upto = pairs texts).
Proof.
  revert r. induction texts as [|t texts IH]; intros r; simpl.
  - exists []. auto.
  - rewrite (pairs_cons t texts). unfold body.
    destruct (readLine t) as [|line|n v] eqn:E.
    + rewrite pairs_other by (intros n v; congruence). apply IH.
    + exists []. split; [apply prefix_nil|]. split; [reflexivity|discriminate].
    + rewrite (pairs_Pair _ _ _ E).
      destruct (flag_Set n v r) as [r' [e|]] eqn:Hs.
      * exists [(n, v)]. split; [now apply prefix_app_r|]. simpl. rewrite Hs.
        split; [reflexivity|discriminate].
      * destruct (IH r') as (upto & Hp & Hst & Hok). exists ((n, v) :: upto).
        split; [now apply (prefix_app [(n, v)])|]. simpl. rewrite Hs. simpl.
        split; [exact Hst|]. intros Hnone. now rewrite Hok.
Qed.

(** A loop that ends in no error has made the [Set] calls of all its
    lines, in order, and met no line without ['=']. *)
Lemma scan_ok_apply texts (r : R) :
  (scan texts r).2 = None ->
  (scan texts r).1 = apply_sets (pairs texts) r /\
  Forall (fun t => blank t \/ comment t \/ Contains t "=" = true) texts.
Proof.
  revert r. induction texts as [|t texts IH]; intros r; simpl.
  - intros _. split; [reflexivity|constructor].
  - rewrite (pairs_cons t texts). unfold body.
    destruct (readLine t) as [|line|n v] eqn:E.
    + intros Hok. destruct (IH r Hok) as [-> Hall].
      rewrite pairs_other by (intros n v; congruence).
      split; [reflexivity|]. constructor; [|exact Hall].
      destruct (readLine_Skip_inv t E) as [Hb|Hc]; [now left|right; now left].
    + discriminate.
    + destruct (flag_Set n v r) as [r' [e|]] eqn:Hs; [discriminate|].
      intros Hok. destruct (IH r' Hok) as [-> Hall].
      rewrite (pairs_Pair _ _ _ E). simpl. rewrite Hs.
      split; [reflexivity|]. constructor; [|exact Hall].
      right; right. now apply (readLine_Pair_Contains t n v).
Qed.

Lemma scan_invariant (I : R -> Prop) texts (r : R) :
  (forall n v r', I r' -> I (flag_Set n v r').1) ->
  I r -> I (scan texts r).1.
Proof.
  intros Hset. revert r. induction texts as [|t texts IH]; intros r Hr; simpl; [exact Hr|].
  assert (Hb : I (body t r).1).
  { unfold body. destruct (readLine t) as [|line|n v]; try exact Hr.
    specialize (Hset n v r Hr). now destruct (flag_Set n v r) as [r' [e|]]. }
  destruct (body t r) as [r' [e|]]; [exact Hb|]. now apply IH.
Qed.

(** The loop sees a line through [readLine] only. *)
Lemma scan_readLine texts texts' (r : R) :
  Forall2 (fun t t' => readLine t' = readLine t) texts texts' ->
  scan texts' r = scan texts r.
Proof.
  intros Hall. revert r.
  induction Hall as [|t t' texts texts' E _ IH]; intros r; [reflexivity|].
  simpl. unfold body. rewrite E.
  destruct (readLine t) as [|line|n v]; try reflexivity; [apply IH|].
  destruct (flag_Set n v r) as [r' [e|]]; [reflexivity|apply IH].
Qed.

End scan_facts.

(** * Registries whose [Set] accepts a pair whatever was set before *)

Section acceptance_facts.
Context {R : Type} `{Registry R}.
Import strings string_facts.

Hypothesis Set_error_stable : forall n v m w (r : R),
  (flag_Set n v (flag_Set m w r).1).2 = (flag_Set n v r).2.

Lemma apply_sets_error_stable ops n v (r : R) :
  (flag_Set n v (apply_sets ops r)).2 = (flag_Set n v r).2.
Proof.
  revert r. induction ops as [|[m w] ops IH]; intros r; [reflexivity|].
  simpl. now rewrite IH, Set_error_stable.
Qed.

(** The loop ends in no error exactly when every line is acceptable to the
    registry as it was before the loop. *)
Lemma scan_succeeds_iff texts done (r : R) :
  (scan texts (apply_sets done r)).2 = None <-> Forall (acceptable r) texts.
Proof.
  revert done. induction texts as [|t texts IH]; intros done; simpl.
  - split; [constructor|reflexivity].
  - unfold body. destruct (readLine t) as [|line|n v] eqn:E.
    + rewrite IH. split; [intros Hall|now inversion 1].
      constructor; [|exact Hall].
      destruct (readLine_Skip_inv _ E); [now left|right; now left].
    + split; [discriminate|]. inversion 1 as [|? ? Ht _]; subst.
      destruct Ht as [Hb|[Hc|(n & v & E' & _)]]; [| |congruence].
      * rewrite (readLine_blank_or_comment t (or_introl Hb)) in E. discriminate.
      * rewrite (readLine_blank_or_comment t (or_intror Hc)) in E. discriminate.
    + pose proof (apply_sets_error_stable done n v r) as Hd.
      destruct (flag_Set n v (apply_sets done r)) as [r' [c|]] eqn:Hs; simpl in Hd.
      * split; [discriminate|]. inversion 1 as [|? ? Ht _]; subst.
        destruct Ht as [Hb|[Hc|(n' & v' & E' & Hacc)]].
        -- rewrite (readLine_blank_or_comment t (or_introl Hb)) in E. discriminate.
        -- rewrite (readLine_blank_or_comment t (or_intror Hc)) in E. discriminate.
        -- congruence.
      * specialize (IH (done ++ [(n, v)])). rewrite apply_sets_app in IH.
        simpl in IH. rewrite Hs in IH. simpl in IH. rewrite IH.
        split; [intros Hall|now inversion 1].
        constructor; [|exact Hall]. right; right. now exists n, v.
Qed.

End acceptance_facts.

(** * The properties of the specification *)

Section claims.
Context {R : Type} `{Registry R}.
Import strings string_facts.

(** C1, as amended.  Fail fast, nothing undone.  Let the loop reach a line
    that fails: stripped, it is not blank, not a comment and has no ['='],
    or the registry's [Set] returns an error for its pair.  Then [Load]
    returns an error ("failed to split line" with the stripped line, or
    "failed to set flag" with the pair and the registry's error); the
    calls that reached the registry are those of the earlier lines and of
    this line, none of a later line; the registry is left as it was after
    the earlier lines, passed through the failing [Set] call when there was
    one; and so every setting that the failing [Set] call leaves alone
    reads as the earlier lines left it. *)
Theorem Load_fails_fast (fs : FileSystem) (configfile : string)
    (pre : list string) (text : string) (post : list string)
    (err : option error) (r : R) :
  fs configfile = inr (file (pre ++ text :: post) err) ->
  (scan pre r).2 = None ->
  (TrimSpace text <> "" /\ HasPrefix (TrimSpace text) "#" = false /\
   Contains (TrimSpace text) "=" = false) \/
  (exists name value, readLine text = Pair name value /\
                      (flag_Set name value (scan pre r).1).2 <> None) ->
  (exists e, (Load fs configfile r).2 = Some e /\
             (e = failed_to_split_line (TrimSpace text) \/
              exists name value cause,
                readLine text = Pair name value /\
                (flag_Set name value (scan pre r).1).2 = Some cause /\
                e = failed_to_set_flag name value cause)) /\
  calls (Load fs configfile (logging r)).1 = pairs (pre ++ [text]) /\
  (Load fs configfile r).1 =
    match readLine text with
    | Pair name value => (flag_Set name value (scan pre r).1).1
    | _ => (scan pre r).1
    end /\
  (forall m,
     (forall name value,
        readLine text = Pair name value ->
        flag_Lookup m (flag_Set name value (scan pre r).1).1 =
        flag_Lookup m (scan pre r).1) ->
     flag_Lookup m (Load fs configfile r).1 = flag_Lookup m (scan pre r).1).
Proof.
  intros Hfs Hpre [(Hne & Hc & Hs)|(name & value & E & Hset)].
  - rewrite Contains_TrimSpace in Hs by reflexivity.
    pose proof (readLine_NoSeparator text Hne Hc Hs) as E.
    pose proof (body_NoSeparator text _ (scan pre r).1 E) as Hb.
    assert (He : (body text (scan pre r).1).2 =
                 Some (failed_to_split_line (TrimSpace text))) by now rewrite Hb.
    rewrite (Load_stops_at _ _ _ _ _ _ _ _ Hfs Hpre He).
    rewrite (Load_logged_stops_at _ _ _ _ _ _ _ _ Hfs Hpre He).
    rewrite Hb, E. simpl. split; [|split; [|split]]; try reflexivity.
    eexists. split; [reflexivity|]. now left.
  - destruct (flag_Set name value (scan pre r).1) as [r' [cause|]] eqn:Hs;
      simpl in Hset; [clear Hset|congruence].
    pose proof (body_Pair text _ _ (scan pre r).1 E) as Hb. rewrite Hs in Hb.
    assert (He : (body text (scan pre r).1).2 =
                 Some (failed_to_set_flag name value cause)) by now rewrite Hb.
    rewrite (Load_stops_at _ _ _ _ _ _ _ _ Hfs Hpre He).
    rewrite (Load_logged_stops_at _ _ _ _ _ _ _ _ Hfs Hpre He).
    rewrite Hb, E, Hs. simpl. split; [|split; [|split]]; try reflexivity.
    + eexists. split; [reflexivity|]. right. exists name, value, cause.
      now rewrite Hs.
    + intros m Hm. specialize (Hm name value eq_refl). now rewrite Hs in Hm.
Qed.

(** C3. A line that is not blank, not a comment and has an ['='] is cut at
    its first ['=']: the stripped line is [a ++ "=" ++ b] with no ['='] in
    [a], and the pair forwarded is [a] and [b], each trimmed.  [b] is the
    forwarded value with white space around it, so every later ['='] is in
    the value: the value has all the ['='] of the line but the first. *)
Theorem Load_cuts_at_first_separator (fs : FileSystem) (configfile : string)
    (pre : list string) (text : string) (post : list string)
    (err : option error) (r : R) :
  fs configfile = inr (file (pre ++ text :: post) err) ->
  (scan pre r).2 = None ->
  TrimSpace text <> "" ->
  HasPrefix (TrimSpace text) "#" = false ->
  Contains text "=" = true ->
  exists a b u1 u2,
    TrimSpace text = (a ++ String "=" b)%string /\
    Contains a "=" = false /\
    isSpaces u1 = true /\ isSpaces u2 = true /\
    b = (u1 ++ TrimSpace b ++ u2)%string /\
    S (count "=" (TrimSpace b)) = count "=" text /\
    pairs pre ++ [(TrimSpace a, TrimSpace b)]
      `prefix_of` calls (Load fs configfile (logging r)).1.
Proof.
  intros Hfs Hpre Hne Hc Hs.
  destruct (readLine_entry text Hne Hc Hs) as (a & b & E & Ha & Hr).
  destruct (TrimSpace_split b) as (u1 & u2 & Hu1 & Hu2 & Eb).
  exists a, b, u1, u2. repeat split; try assumption.
  - rewrite <- (count_TrimSpace "=" text), E, count_app by reflexivity.
    rewrite (count_0 _ a) by assumption. simpl.
    rewrite (count_TrimSpace "=" b) by reflexivity.
    destruct (ascii_dec "=" "="); [lia|congruence].
  - pose proof (Load_logged_reached _ _ _ _ _ _ r Hfs Hpre) as Hcalls.
    now rewrite pairs_app, (pairs_Pair _ _ _ Hr) in Hcalls.
Qed.

(** C10. ['#'] starts a comment at the head of the stripped line only.  A
    line that is not blank, does not start with ['#'] after trimming and
    has an ['='] is white space, the name, ['='], the value and white
    space; that name and that value are forwarded, and every ['#'] of the
    line is in one of them. *)
Theorem Load_keeps_inline_hash (fs : FileSystem) (configfile : string)
    (pre : list string) (text : string) (post : list string)
    (err : option error) (r : R) :
  fs configfile = inr (file (pre ++ text :: post) err) ->
  (scan pre r).2 = None ->
  TrimSpace text <> "" ->
  HasPrefix (TrimSpace text) "#" = false ->
  Contains text "=" = true ->
  exists name value u1 u2 u3 u4,
    isSpaces u1 = true /\ isSpaces u2 = true /\
    isSpaces u3 = true /\ isSpaces u4 = true /\
    text = (u1 ++ name ++ u2 ++ String "=" (u3 ++ value ++ u4))%string /\
    count "#" name + count "#" value = count "#" text /\
    pairs pre ++ [(name, value)]
      `prefix_of` calls (Load fs configfile (logging r)).1.
Proof.
  intros Hfs Hpre Hne Hc Hs.
  destruct (readLine_entry text Hne Hc Hs) as (a & b & _ & _ & Hr).
  destruct (readLine_Pair_shape _ _ _ Hr) as (u1 & u2 & u3 & u4 & H1 & H2 & H3 & H4 & _ & Et).
  exists (TrimSpace a), (TrimSpace b), u1, u2, u3, u4.
  repeat split; try assumption.
  - rewrite Et at 1. rewrite !count_app. simpl. rewrite !count_app.
    rewrite (count_spaces _ u1), (count_spaces _ u2),
      (count_spaces _ u3), (count_spaces _ u4) by easy.
    destruct (ascii_dec "#" "="); [discriminate|lia].
  - pose proof (Load_logged_reached _ _ _ _ _ _ r Hfs Hpre) as Hcalls.
    now rewrite pairs_app, (pairs_Pair _ _ _ Hr) in Hcalls.
Qed.

(** C6, as amended.  A blank line and a comment line that the scanner
    delivers are skipped: the file with such a line loads exactly as the
    file without it, with the same calls to the registry, the same
    registry and the same result.  Hence a file of blank lines and comment
    lines only that the scanner reads to its end loads with no error, no
    call to [Set] and the registry untouched; and the scanner does read to
    its end a file whose lines all fit its buffer of 65536 bytes. *)
Theorem Load_skips_blank_and_comment_lines (fs fs' fs0 : FileSystem)
    (configfile : string) (pre : list string) (text : string)
    (post : list string) (err : option error) (sc0 : Scanner) (r : R) :
  blank text \/ comment text ->
  fs configfile = inr (file (pre ++ text :: post) err) ->
  fs' configfile = inr (file (pre ++ post) err) ->
  fs0 configfile = inr sc0 ->
  Forall (fun t => blank t \/ comment t) (Text sc0) ->
  Err sc0 = None ->
  Load fs configfile (logging r) = Load fs' configfile (logging r) /\
  Load fs0 configfile (logging r) = (logging r, None) /\
  (forall (data : string) (fsd : FileSystem),
     fsd configfile = inr (bufio.NewScanner data) ->
     Forall (fun l => fits l /\ (blank l \/ comment l)) (bufio.rawLines data) ->
     Load fsd configfile (logging r) = (logging r, None)).
Proof.
  intros Ht Hfs Hfs' Hfs0 Hall Herr. split; [|split].
  - rewrite (Load_open _ _ _ _ Hfs), (Load_open _ _ _ _ Hfs'). simpl.
    rewrite (scan_app pre (text :: post) (logging r)).
    rewrite (scan_app pre post (logging r)).
    destruct (scan pre (logging r)) as [l [e|]]; [reflexivity|].
    simpl. now rewrite (body_Skip text l (readLine_blank_or_comment text Ht)).
  - rewrite (Load_open _ _ _ _ Hfs0), scan_all_skipped by assumption.
    now rewrite Herr.
  - intros data fsd Hfsd Hlines. rewrite (Load_open _ _ _ _ Hfsd).
    unfold bufio.NewScanner. rewrite bufio_facts.deliver_fits.
    + simpl. rewrite scan_all_Skip; [reflexivity|].
      apply Forall_map. eapply Forall_impl; [exact Hlines|].
      intros l [_ Hl]. simpl. rewrite bufio_facts.readLine_dropCR.
      now apply readLine_blank_or_comment.
    + eapply Forall_impl; [exact Hlines|]. now intros l [Hl _].
Qed.

(** C8. With no setting registered under the empty name, in a registry
    where [Set] fails for a name that is not registered and registers
    none, a file with a line whose name part before the first ['='] is
    empty does not load: [Load] returns an error when the scanner delivers
    such a line, and so whenever the bytes of the file have such a line,
    delivered or not. *)
Theorem Load_rejects_empty_name (fs : FileSystem) (configfile : string)
    (sc : Scanner) (w rest : string) (r : R) :
  (forall v r', flag_Lookup "" r' = None -> (flag_Set "" v r').2 <> None) ->
  (forall n v r', flag_Lookup "" r' = None ->
                  flag_Lookup "" (flag_Set n v r').1 = None) ->
  fs configfile = inr sc ->
  In (w ++ String "=" rest)%string (Text sc) ->
  isSpaces w = true ->
  flag_Lookup "" r = None ->
  (exists e, (Load fs configfile r).2 = Some e) /\
  (forall (data : string) (fsd : FileSystem),
     fsd configfile = inr (bufio.NewScanner data) ->
     In (w ++ String "=" rest)%string (bufio.rawLines data) ->
     exists e, (Load fsd configfile r).2 = Some e).
Proof.
  intros Hunknown Hkeep Hfs Hin Hw Hr.
  assert (E : readLine (w ++ String "=" rest) = Pair "" (TrimSpace rest)).
  { rewrite readLine_Pair.
    - now rewrite (TrimSpace_spaces w).
    - now apply Contains_spaces.
    - now rewrite (TrimSpace_spaces w). }
  split.
  - pose proof (scan_empty_name _ _ r _ Hunknown Hkeep Hin E Hr) as Hscan.
    rewrite (Load_open _ _ _ _ Hfs).
    destruct (scan (Text sc) r) as [r' [e|]]; [now exists e|now destruct Hscan].
  - intros data fsd Hfsd Hline. rewrite (Load_open _ _ _ _ Hfsd).
    unfold bufio.NewScanner.
    destruct (bufio_facts.deliver_In _ _ Hline) as [Hd|Herr].
    + rewrite <- bufio_facts.readLine_dropCR in E.
      pose proof (scan_empty_name _ _ r _ Hunknown Hkeep Hd E Hr) as Hscan.
      destruct (scan _ r) as [r' [e|]]; [now exists e|now destruct Hscan].
    + destruct (scan _ r) as [r' [e|]]; [now exists e|].
      destruct (Err _) as [e|]; [now eexists|contradiction].
Qed.

(** C9, as amended.  Frame.  In a registry where [Set] changes the setting
    it names and no other, a setting that no entry line of the file names
    reads after [Load] as it read before, whether [Load] returns an error
    or not. *)
Theorem Load_frame (fs : FileSystem) (configfile : string) (m : string) (r : R) :
  (forall n v r', m <> n -> flag_Lookup m (flag_Set n v r').1 = flag_Lookup m r') ->
  (forall sc, fs configfile = inr sc -> Forall (fun t => ~ names m t) (Text sc)) ->
  flag_Lookup m (Load fs configfile r).1 = flag_Lookup m r.
Proof.
  intros Hframe Hall. destruct (fs configfile) as [e|sc] eqn:Hfs.
  - now rewrite (Load_not_open _ _ _ _ Hfs).
  - rewrite (Load_fst _ _ _ _ Hfs). apply scan_frame; auto.
Qed.

(** Where [Set] overwrites, a file of acceptable lines loads, and the
    setting of its last entry line for [k] reads as that line's [Set]
    makes it read. *)
Lemma Load_last_assignment (fs : FileSystem) (configfile : string)
    (pre : list string) (text : string) (post : list string)
    (k b x : string) (r : R) :
  (forall n v r', k <> n -> flag_Lookup k (flag_Set n v r').1 = flag_Lookup k r') ->
  (forall n v m w r', (flag_Set n v (flag_Set m w r').1).2 = (flag_Set n v r').2) ->
  (forall ops, (flag_Set k b (apply_sets ops r)).2 = None ->
               flag_Lookup k (flag_Set k b (apply_sets ops r)).1 = Some x) ->
  fs configfile = inr (file (pre ++ text :: post) None) ->
  readLine text = Pair k b ->
  Forall (fun t => ~ names k t) post ->
  Forall (acceptable r) (pre ++ text :: post) ->
  (Load fs configfile r).2 = None /\
  flag_Lookup k (Load fs configfile r).1 = Some x /\
  calls (Load fs configfile (logging r)).1 = pairs (pre ++ text :: post).
Proof.
  intros Hframe Hstable Hwrite Hfs E Hpost Hall.
  assert (Hscan : (scan (pre ++ text :: post) r).2 = None).
  { now apply (scan_succeeds_iff Hstable _ [] r). }
  assert (Hpre : (scan pre r).2 = None).
  { rewrite scan_app in Hscan. now destruct (scan pre r) as [r1 [e|]]. }
  assert (Hset : (flag_Set k b (scan pre r).1).2 = None).
  { rewrite scan_reached, (body_Pair _ _ _ _ E) in Hscan by assumption.
    now destruct (flag_Set k b (scan pre r).1) as [r2 [e|]]. }
  split; [|split].
  - rewrite (Load_open _ _ _ _ Hfs). simpl.
    now destruct (scan (pre ++ text :: post) r) as [r' [e|]].
  - rewrite (Load_reads_assignment _ _ _ _ _ _ _ _ _ Hframe Hfs Hpre E Hpost).
    destruct (scan_ok_apply _ _ Hpre) as [Hst _]. rewrite Hst in *. auto.
  - rewrite (Load_fst _ _ _ _ Hfs). simpl.
    now rewrite (scan_logged_ok _ (logging r)).
Qed.

End claims.

(** * Loading twice *)

Section idempotence.
Context {R : Type} `{Registry R}.

(** What the registry promises: whether [Set] accepts a pair does not
    depend on an earlier call; a call repeated at once changes nothing; and
    a call makes the same call made two calls earlier redundant (hence,
    [apply_sets_absorb], however many calls earlier).  Go's flags of the
    built-in kinds are like that: [Set] overwrites the value. *)
Hypothesis Set_error_stable : forall n v m w (r : R),
  (flag_Set n v (flag_Set m w r).1).2 = (flag_Set n v r).2.
Hypothesis Set_twice : forall n v (r : R),
  (flag_Set n v (flag_Set n v r).1).1 = (flag_Set n v r).1.
Hypothesis Set_again : forall n v m w (r : R),
  (flag_Set n v (flag_Set m w (flag_Set n v r).1).1).1 =
  (flag_Set n v (flag_Set m w r).1).1.

(** A call absorbs the same call made earlier. *)
Lemma apply_sets_absorb ops n v (r : R) :
  apply_sets ((n, v) :: ops ++ [(n, v)]) r = apply_sets (ops ++ [(n, v)]) r.
Proof.
  revert r. induction ops as [|[m w] ops IH]; intros r.
  - simpl. apply Set_twice.
  - change (apply_sets (ops ++ [(n, v)])
              (flag_Set m w (flag_Set n v r).1).1 =
            apply_sets (ops ++ [(n, v)]) (flag_Set m w r).1).
    rewrite <- (IH (flag_Set m w (flag_Set n v r).1).1), <- (IH (flag_Set m w r).1).
    simpl. now rewrite Set_again.
Qed.

(** A series of calls made twice over is that series made once. *)
Lemma apply_sets_twice ops (r : R) :
  apply_sets ops (apply_sets ops r) = apply_sets ops r.
Proof.
  revert r. induction ops as [|[n v] ops IH] using rev_ind; intros r; [reflexivity|].
  rewrite <- apply_sets_app.
  replace ((ops ++ [(n, v)]) ++ ops ++ [(n, v)])
    with (ops ++ ((n, v) :: ops ++ [(n, v)])) by now rewrite <- List.app_assoc.
  rewrite apply_sets_app, apply_sets_absorb, <- apply_sets_app.
  rewrite List.app_assoc, apply_sets_app, apply_sets_app, IH.
  now rewrite <- apply_sets_app.
Qed.

(** From every registry that a series of calls leads to from [r], the loop
    makes the same calls and ends in the same way. *)
Lemma scan_replay texts (r : R) :
  exists ops e, forall done,
    scan texts (apply_sets done r) = (apply_sets ops (apply_sets done r), e).
Proof.
  induction texts as [|t texts (ops & e & IH)].
  - now exists [], None.
  - simpl. unfold body. destruct (readLine t) as [|line|n v].
    + exists ops, e. exact IH.
    + now exists [], (Some (failed_to_split_line line)).
    + destruct (flag_Set n v r).2 as [cause|] eqn:Hs.
      * exists [(n, v)], (Some (failed_to_set_flag n v cause)). intros done.
        pose proof (apply_sets_error_stable Set_error_stable done n v r) as Hd.
        rewrite Hs in Hd. simpl.
        destruct (flag_Set n v (apply_sets done r)) as [r' [c|]]; simpl in *; congruence.
      * exists ((n, v) :: ops), e. intros done.
        pose proof (apply_sets_error_stable Set_error_stable done n v r) as Hd.
        rewrite Hs in Hd.
        specialize (IH (done ++ [(n, v)])). rewrite apply_sets_app in IH.
        simpl in *.
        destruct (flag_Set n v (apply_sets done r)) as [r' [c|]] eqn:Hs';
          simpl in *; [discriminate|exact IH].
Qed.

(** C5, as amended.  Idempotence.  In a registry whose [Set] overwrites
    (the three promises above), for every file and every registry to start
    from, [Load] on the registry that a first [Load] left returns what the
    first one returned and leaves that registry as it is. *)
Theorem Load_idempotent (fs : FileSystem) (configfile : string) (r : R) :
  Load fs configfile (Load fs configfile r).1 = Load fs configfile r.
Proof.
  unfold Load. destruct (fs configfile) as [e|sc]; [reflexivity|].
  destruct (scan_replay (Text sc) r) as (ops & e & Hscan).
  pose proof (Hscan []) as H1. pose proof (Hscan ops) as H2. simpl in H1.
  rewrite apply_sets_twice in H2.
  rewrite H1. destruct e as [e|].
  - simpl. now rewrite H2.
  - destruct (Err sc); simpl; now rewrite H2.
Qed.

End idempotence.

(** * Go's flag set keeps the registry's promises *)

Module flag_facts.
Import flag.

(** [Value.Set] looks at the kind of the value only, and keeps it. *)
Lemma Value_Set_kind val v v' :
  Value_Set val (Value_Set v' v).1 = Value_Set val v.
Proof.
  destruct v; simpl; [reflexivity|now destruct (ParseBool v')|].
  now destruct (strconv.ParseInt v').
Qed.

(** [Set] on a name that is not defined. *)
Lemma Set_undefined name value f :
  formal f !! name = None ->
  Set_ name value f = (f, Some (errorString ("no such flag -" ++ name))).
Proof. intros E. unfold Set_. now rewrite E. Qed.

(** [Set] on a defined name: the flag keeps everything but its value. *)
Lemma Set_defined name value f fl :
  formal f !! name = Some fl ->
  Set_ name value f =
  ({| formal := <[name := {| Name := Name fl; Usage := Usage fl;
                             Value_ := (Value_Set value (Value_ fl)).1;
                             DefValue := DefValue fl |}]> (formal f);
      actual := match (Value_Set value (Value_ fl)).2 with
                | Some _ => actual f
                | None => {[name]} ∪ actual f
                end |},
   (Value_Set value (Value_ fl)).2).
Proof.
  intros E. unfold Set_. rewrite E.
  now destruct (Value_Set value (Value_ fl)) as [v [e|]].
Qed.

Lemma Lookup_Set_other name value f m :
  m <> name -> Lookup m (Set_ name value f).1 = Lookup m f.
Proof.
  intros Hne. unfold Lookup. destruct (formal f !! name) as [fl|] eqn:E.
  - rewrite (Set_defined _ _ _ _ E). simpl. now rewrite lookup_insert_ne.
  - now rewrite (Set_undefined _ _ _ E).
Qed.

Lemma Lookup_None m f : Lookup m f = None <-> formal f !! m = None.
Proof. unfold Lookup. now destruct (formal f !! m). Qed.

Lemma Set_unknown name value f :
  Lookup name f = None -> (Set_ name value f).2 <> None.
Proof. intros E%Lookup_None. now rewrite (Set_undefined _ _ _ E). Qed.

Lemma Set_registers_none name value f m :
  Lookup m f = None -> Lookup m (Set_ name value f).1 = None.
Proof.
  intros Hm. destruct (decide (m = name)) as [->|Hne].
  - apply Lookup_None in Hm. now rewrite (Set_undefined _ _ _ Hm), Lookup_None.
  - now rewrite Lookup_Set_other.
Qed.

(** A string flag takes any text and reads back as that text. *)
Lemma Set_stringValue name value f fl s :
  formal f !! name = Some fl -> Value_ fl = stringValue s ->
  (Set_ name value f).2 = None /\ Lookup name (Set_ name value f).1 = Some value.
Proof.
  intros E Hs. rewrite (Set_defined _ _ _ _ E), Hs. simpl. split; [reflexivity|].
  unfold Lookup. simpl. now rewrite lookup_insert_eq.
Qed.

Lemma FlagSet_error_stable n v m w f :
  (Set_ n v (Set_ m w f).1).2 = (Set_ n v f).2.
Proof.
  destruct (formal f !! m) as [fm|] eqn:Em; [|now rewrite (Set_undefined _ _ _ Em)].
  rewrite (Set_defined m _ _ _ Em). simpl.
  destruct (decide (n = m)) as [->|Hne].
  - rewrite (Set_defined m v _ _ (lookup_insert_eq _ _ _)), (Set_defined m v _ _ Em).
    simpl. now rewrite Value_Set_kind.
  - destruct (formal f !! n) as [fn|] eqn:En.
    + rewrite (Set_defined n v f _ En).
      erewrite Set_defined by (simpl; rewrite lookup_insert_ne by congruence; exact En).
      reflexivity.
    + rewrite (Set_undefined n v f En).
      erewrite Set_undefined by (simpl; rewrite lookup_insert_ne by congruence; exact En).
      reflexivity.
Qed.

Lemma Set_state name value f fl :
  formal f !! name = Some fl ->
  (Set_ name value f).1 =
  {| formal := <[name := assign name value fl]> (formal f);
     actual := accepted name value fl ∪ actual f |}.
Proof.
  intros E. rewrite (Set_defined _ _ _ _ E). unfold assign, accepted. simpl.
  f_equal. destruct (Value_Set value (Value_ fl)).2; [|reflexivity].
  now rewrite union_empty_l_L.
Qed.

Lemma assign_assign n v m w fl : assign n v (assign m w fl) = assign n v fl.
Proof. unfold assign. simpl. now rewrite Value_Set_kind. Qed.

Lemma accepted_assign n v m w fl : accepted n v (assign m w fl) = accepted n v fl.
Proof. unfold accepted, assign. simpl. now rewrite Value_Set_kind. Qed.

Lemma FlagSet_twice n v f : (Set_ n v (Set_ n v f).1).1 = (Set_ n v f).1.
Proof.
  destruct (formal f !! n) as [fl|] eqn:E; [|now rewrite !(Set_undefined _ _ _ E)].
  rewrite (Set_state _ _ _ _ E).
  rewrite (Set_state n v _ (assign n v fl)) by apply lookup_insert_eq. simpl.
  rewrite assign_assign, accepted_assign, insert_insert_eq. f_equal. apply set_eq; intros x; set_unfold; tauto.
Qed.

Lemma FlagSet_again n v m w f :
  (Set_ n v (Set_ m w (Set_ n v f).1).1).1 = (Set_ n v (Set_ m w f).1).1.
Proof.
  destruct (decide (n = m)) as [->|Hne].
  - destruct (formal f !! m) as [fl|] eqn:E; [|now rewrite !(Set_undefined _ _ _ E)].
    rewrite (Set_state m v _ _ E), (Set_state m w _ _ E).
    rewrite (Set_state m w _ (assign m v fl)) by apply lookup_insert_eq. simpl.
    rewrite (Set_state m v _ (assign m w (assign m v fl))) by apply lookup_insert_eq.
    rewrite (Set_state m v _ (assign m w fl)) by apply lookup_insert_eq. simpl.
    rewrite !assign_assign, !accepted_assign, !insert_insert_eq. f_equal. apply set_eq; intros x; set_unfold; tauto.
  - destruct (formal f !! n) as [fn|] eqn:En.
    + rewrite (Set_state n v _ _ En).
      destruct (formal f !! m) as [fm|] eqn:Em.
      * rewrite (Set_state m w f _ Em).
        rewrite (Set_state m w _ fm) by (simpl; now rewrite lookup_insert_ne).
        simpl.
        rewrite (Set_state n v _ (assign n v fn))
          by (simpl; rewrite lookup_insert_ne by congruence; apply lookup_insert_eq).
        rewrite (Set_state n v _ fn) by (simpl; now rewrite lookup_insert_ne by congruence).
        simpl. rewrite assign_assign, accepted_assign.
        rewrite (insert_insert_ne _ n m) by assumption.
        rewrite insert_insert_eq. rewrite (insert_insert_ne _ m n) by congruence.
        f_equal. apply set_eq; intros x; set_unfold; tauto.
      * rewrite (Set_undefined m w f Em).
        rewrite (Set_undefined m w) by (simpl; now rewrite lookup_insert_ne).
        simpl. rewrite <- (Set_state n v f fn En). apply FlagSet_twice.
    + rewrite (Set_undefined n v f En). simpl.
      destruct (formal f !! m) as [fm|] eqn:Em.
      * reflexivity.
      * reflexivity.
Qed.

(** [Value.Set] looks at the kind only, and [Set] keeps the kind of every
    flag, whatever name it is called with. *)
Lemma Value_Set_by_kind val v v' : kind v = kind v' -> Value_Set val v = Value_Set val v'.
Proof. destruct v, v'; simpl; congruence. Qed.

Lemma kind_Value_Set val v : kind (Value_Set val v).1 = kind v.
Proof.
  destruct v; simpl; [reflexivity|now destruct (ParseBool val)|].
  now destruct (strconv.ParseInt val).
Qed.

Lemma Set_keeps_kind k n v f fl :
  formal f !! k = Some fl ->
  exists fl', formal (Set_ n v f).1 !! k = Some fl' /\
              kind (Value_ fl') = kind (Value_ fl).
Proof.
  intros E. destruct (formal f !! n) as [fn|] eqn:En.
  - rewrite (Set_state _ _ _ _ En). simpl.
    destruct (decide (k = n)) as [->|Hne].
    + rewrite lookup_insert_eq. exists (assign n v fn). split; [reflexivity|].
      unfold assign. simpl. replace fn with fl by congruence. apply kind_Value_Set.
    + rewrite lookup_insert_ne by congruence. now exists fl.
  - rewrite (Set_undefined _ _ _ En). now exists fl.
Qed.

Lemma apply_sets_keeps_kind k ops f fl :
  formal f !! k = Some fl ->
  exists fl', formal (apply_sets ops f) !! k = Some fl' /\
              kind (Value_ fl') = kind (Value_ fl).
Proof.
  revert f fl. induction ops as [|[n v] ops IH]; intros f fl E; [now exists fl|].
  destruct (Set_keeps_kind k n v f fl E) as (fl1 & E1 & H1).
  destruct (IH _ fl1 E1) as (fl2 & E2 & H2). exists fl2. split; [exact E2|congruence].
Qed.

(** Whatever was set before, a flag that [Set] assigns to reads as the
    rendering of the text by its kind: [Set] overwrites. *)
Lemma FlagSet_write k b ops f fl :
  formal f !! k = Some fl ->
  Lookup k (Set_ k b (apply_sets ops f)).1 = Some (rendering b fl).
Proof.
  intros E. destruct (apply_sets_keeps_kind k ops f fl E) as (fl' & E' & Hk).
  rewrite (Set_defined _ _ _ _ E'). unfold Lookup, rendering. simpl.
  rewrite lookup_insert_eq. simpl.
  now rewrite (Value_Set_by_kind b _ _ Hk).
Qed.

(** A string flag reads as the text itself. *)
Lemma rendering_stringValue b fl s : Value_ fl = stringValue s -> rendering b fl = b.
Proof. intros Hs. unfold rendering. now rewrite Hs. Qed.

End flag_facts.

(** * The properties that speak of a string flag *)

(** C2, as amended.  A line [<ws>name<ws>=<ws>value<ws>], where [name] and
    [value] carry no white space at their ends, [name] has no ['='] and
    does not start with ['#']: the pair forwarded to [Set] is exactly
    [(name, value)].  Read back after [Load], a setting that no later line
    of the file names, in a registry whose [Set] changes no other setting,
    reads as [Set(name, value)] left it; for a string flag of Go's flag
    set that is the identical string [value]. *)
Theorem Load_forwards_trimmed_pair {R : Type} `{Registry R}
    (fs : FileSystem) (configfile : string)
    (pre : list string) (w1 name w2 w3 value w4 : string) (post : list string)
    (err : option error) (r : R) :
  strings.isSpaces w1 = true -> strings.isSpaces w2 = true ->
  strings.isSpaces w3 = true -> strings.isSpaces w4 = true ->
  strings.TrimSpace name = name -> strings.TrimSpace value = value ->
  strings.Contains name "=" = false -> strings.HasPrefix name "#" = false ->
  fs configfile =
    inr (file (pre ++ (w1 ++ name ++ w2 ++ "=" ++ w3 ++ value ++ w4)%string :: post)
              err) ->
  (scan pre r).2 = None ->
  pairs pre ++ [(name, value)] `prefix_of` calls (Load fs configfile (logging r)).1 /\
  ((forall n v r', name <> n ->
                   flag_Lookup name (flag_Set n v r').1 = flag_Lookup name r') ->
   Forall (fun t => ~ names name t) post ->
   flag_Lookup name (Load fs configfile r).1 =
     flag_Lookup name (flag_Set name value (scan pre r).1).1) /\
  (forall (f : flag.FlagSet) (fl : flag.Flag) (s : string),
     (scan pre f).2 = None ->
     flag.formal (scan pre f).1 !! name = Some fl ->
     flag.Value_ fl = flag.stringValue s ->
     Forall (fun t => ~ names name t) post ->
     flag_Lookup name (Load fs configfile f).1 = Some value).
Proof.
  intros H1 H2 H3 H4 Hn Hv Hs Hc Hfs Hpre.
  pose proof (readLine_padded w1 name w2 w3 value w4 H1 H2 H3 H4 Hn Hv Hs Hc) as E.
  set (text := (w1 ++ name ++ w2 ++ "=" ++ w3 ++ value ++ w4)%string) in *.
  pose proof (Load_logged_reached _ _ _ _ _ _ r Hfs Hpre) as Hcalls.
  rewrite pairs_app, (pairs_Pair _ _ _ E) in Hcalls.
  split; [exact Hcalls|]. split.
  - intros Hframe Hpost.
    apply (Load_reads_assignment _ _ _ _ _ _ _ _ _ Hframe Hfs Hpre E Hpost).
  - intros f fl s Hpref Hfl Hstr Hpost.
    rewrite (Load_reads_assignment fs configfile pre text post err f name value);
      try assumption.
    + now apply (flag_facts.Set_stringValue name value _ fl s).
    + intros n v f' Hne. now apply flag_facts.Lookup_Set_other.
Qed.

(** C7. A line whose value part is empty after trimming is an entry like
    any other: the pair forwarded is the name and the empty string; when
    the registry accepts it the load goes on with the next line, in the
    registry where [Set] gave the setting the empty string; and a string
    flag of Go's flag set does accept it, and reads back after [Load] as
    the empty string when no later line names it. *)
Theorem Load_accepts_empty_value {R : Type} `{Registry R}
    (fs fs' : FileSystem) (configfile : string)
    (pre : list string) (a w : string) (post : list string)
    (err : option error) (r : R) :
  strings.Contains a "=" = false ->
  strings.HasPrefix (strings.TrimSpace a) "#" = false ->
  strings.isSpaces w = true ->
  fs configfile = inr (file (pre ++ (a ++ String "=" w)%string :: post) err) ->
  fs' configfile = inr (file post err) ->
  (scan pre r).2 = None ->
  pairs pre ++ [(strings.TrimSpace a, "")]
    `prefix_of` calls (Load fs configfile (logging r)).1 /\
  ((flag_Set (strings.TrimSpace a) "" (scan pre r).1).2 = None ->
   Load fs configfile r =
     Load fs' configfile (flag_Set (strings.TrimSpace a) "" (scan pre r).1).1) /\
  (forall (f : flag.FlagSet) (fl : flag.Flag) (s : string),
     (scan pre f).2 = None ->
     flag.formal (scan pre f).1 !! strings.TrimSpace a = Some fl ->
     flag.Value_ fl = flag.stringValue s ->
     (flag_Set (strings.TrimSpace a) "" (scan pre f).1).2 = None /\
     (Forall (fun t => ~ names (strings.TrimSpace a) t) post ->
      flag_Lookup (strings.TrimSpace a) (Load fs configfile f).1 = Some "")).
Proof.
  intros Ha Hc Hw Hfs Hfs' Hpre.
  assert (E : readLine (a ++ String "=" w) = Pair (strings.TrimSpace a) "").
  { rewrite readLine_Pair by assumption. now rewrite (string_facts.TrimSpace_spaces w). }
  split; [|split].
  - pose proof (Load_logged_reached _ _ _ _ _ _ r Hfs Hpre) as Hcalls.
    now rewrite pairs_app, (pairs_Pair _ _ _ E) in Hcalls.
  - intros Hset. pose proof (body_Pair _ _ _ (scan pre r).1 E) as Hb.
    rewrite (Load_continues _ _ _ _ _ _ _ _ Hfs Hfs' Hpre); rewrite Hb; [reflexivity|].
    simpl. now rewrite Hset.
  - intros f fl s Hpref Hfl Hstr.
    destruct (flag_facts.Set_stringValue (strings.TrimSpace a) "" _ fl s Hfl Hstr)
      as [Hok Hread].
    split; [exact Hok|]. intros Hpost.
    rewrite (Load_reads_assignment fs configfile pre (a ++ String "=" w) post err f
               (strings.TrimSpace a) "");
      try assumption.
    intros n v f' Hne. now apply flag_facts.Lookup_Set_other.
Qed.

(** C4, as amended.  Last write wins, where [Set] overwrites.  In a file
    that the scanner reads to its end, let every line be blank, a comment
    or an entry that the registry accepts, and let [k = b] be the last
    entry line for [k], whatever lines assign to [k] before it.  In a
    registry whose [Set] changes the setting it names and no other, accepts
    or refuses a pair whatever was set before, and makes [k] read [b] once
    it has accepted [(k, b)], [Load] returns no error (assigning to a name
    again is none), [k] reads [b] afterwards and every entry line, repeated
    names included, was forwarded to the registry in file order.  Go's
    flag set is such a registry, up to the rendering of [b] by the kind of
    the flag [k]: [b] itself for a string flag. *)
Theorem Load_last_write_wins {R : Type} `{Registry R}
    (fs : FileSystem) (configfile : string)
    (pre : list string) (text : string) (post : list string)
    (k b : string) (r : R) :
  fs configfile = inr (file (pre ++ text :: post) None) ->
  readLine text = Pair k b ->
  Forall (fun t => ~ names k t) post ->
  ((forall n v r', k <> n -> flag_Lookup k (flag_Set n v r').1 = flag_Lookup k r') ->
   (forall n v m w r', (flag_Set n v (flag_Set m w r').1).2 = (flag_Set n v r').2) ->
   (forall ops, (flag_Set k b (apply_sets ops r)).2 = None ->
                flag_Lookup k (flag_Set k b (apply_sets ops r)).1 = Some b) ->
   Forall (acceptable r) (pre ++ text :: post) ->
   (Load fs configfile r).2 = None /\
   flag_Lookup k (Load fs configfile r).1 = Some b /\
   calls (Load fs configfile (logging r)).1 = pairs (pre ++ text :: post)) /\
  (forall (f : flag.FlagSet) (fl : flag.Flag),
     flag.formal f !! k = Some fl ->
     Forall (acceptable f) (pre ++ text :: post) ->
     (Load fs configfile f).2 = None /\
     flag_Lookup k (Load fs configfile f).1 = Some (flag.rendering b fl) /\
     calls (Load fs configfile (logging f)).1 = pairs (pre ++ text :: post)).
Proof.
  intros Hfs E Hpost. split.
  - intros Hframe Hstable Hwrite Hall.
    now apply (Load_last_assignment fs configfile pre text post k b b r).
  - intros f fl Hfl Hall.
    apply (Load_last_assignment fs configfile pre text post k b (flag.rendering b fl) f);
      try assumption.
    + intros n v f' Hne. now apply flag_facts.Lookup_Set_other.
    + exact flag_facts.FlagSet_error_stable.
    + intros ops _. now apply flag_facts.FlagSet_write.
Qed.

(** * The properties at the inputs of the tests *)

Section witnesses.
Import strings.

(** C1 at the test "Invalid line": the load stops at [invalid_line]; [key1]
    keeps the value of the line before it, [key2] is never set. *)
Lemma Load_fails_fast_witness :
  let fs := one_file "test.conf" (file Invalid_line None) in
  (Load fs "test.conf" TestLoad_flags).2 = Some (failed_to_split_line "invalid_line") /\
  calls (Load fs "test.conf" (logging TestLoad_flags)).1 = [("key1", "value1")] /\
  flag_Lookup "key1" (Load fs "test.conf" TestLoad_flags).1 = Some "value1" /\
  flag_Lookup "key2" (Load fs "test.conf" TestLoad_flags).1 = Some "".
Proof.
  intros fs.
  destruct (Load_fails_fast fs "test.conf" ["key1 = value1"] "invalid_line"
              ["key2 = value2"] None TestLoad_flags)
    as ((e & He & Hform) & Hcalls & Hst & Hkeep).
  - reflexivity.
  - reflexivity.
  - left. repeat split; [vm_compute; discriminate|reflexivity..].
  - split; [|split; [|split]].
    + rewrite He. destruct Hform as [->|(n & v & c & E & _)]; [reflexivity|].
      vm_compute in E. discriminate.
    + rewrite Hcalls. reflexivity.
    + rewrite (Hkeep "key1"); [vm_compute; reflexivity|].
      intros n v E. vm_compute in E. discriminate.
    + rewrite Hst. vm_compute. reflexivity.
Defined.

(** C1 as the specification states it fails where the failing [Set] call
    itself assigns: after [debug = true] the flag [debug] reads ["true"];
    the next line, [debug = maybe], makes [Set] return a parse error, and
    [boolValue.Set] has stored [false] by then.  [Load] returns the error,
    and the assignment made for the earlier line is no longer in effect. *)
Lemma Load_failing_Set_counterexample :
  let fs1 := one_file "app.conf" (file ["debug = true"] None) in
  let fs := one_file "app.conf" (file ["debug = true"; "debug = maybe"] None) in
  (Load fs1 "app.conf" README_flags).2 = None /\
  flag_Lookup "debug" (Load fs1 "app.conf" README_flags).1 = Some "true" /\
  (Load fs "app.conf" README_flags).2 =
    Some (failed_to_set_flag "debug" "maybe" flag.errParse) /\
  flag_Lookup "debug" (Load fs "app.conf" README_flags).1 = Some "false" /\
  flag_Lookup "debug" (Load fs "app.conf" README_flags).1 <> Some "true".
Proof.
  intros fs1 fs. split; [|split; [|split; [|split]]].
  - vm_compute. reflexivity.
  - vm_compute. reflexivity.
  - vm_compute. reflexivity.
  - vm_compute. reflexivity.
  - vm_compute. discriminate.
Qed.

(** C2, as amended, at the first line of the test "Whitespace handling",
    with another line behind it. *)
Lemma Load_forwards_trimmed_pair_witness :
  let fs := one_file "test.conf"
              (file ["  key1    =    value1    "; "key2=value2"] None) in
  [("key1", "value1")] `prefix_of` calls (Load fs "test.conf" (logging TestLoad_flags)).1 /\
  flag_Lookup "key1" (Load fs "test.conf" TestLoad_flags).1 = Some "value1".
Proof.
  intros fs.
  destruct (Load_forwards_trimmed_pair fs "test.conf" [] "  " "key1" "    "
              "    " "value1" "    " ["key2=value2"] None TestLoad_flags)
    as (Hcalls & _ & Hstring); try reflexivity.
  split; [exact Hcalls|].
  apply (Hstring TestLoad_flags
           {| flag.Name := "key1"; flag.Usage := "key1 flag";
              flag.Value_ := flag.stringValue ""; flag.DefValue := "" |} "");
    try reflexivity.
  apply List.Forall_cons; [|apply List.Forall_nil].
  intros [v E]. vm_compute in E. discriminate.
Defined.

(** C2 as the specification states it fails for a typed setting: the line
    [<ws>debug<ws>=<ws>1<ws>] loads without error and forwards
    [("debug", "1")], and the boolean flag [debug] then reads back as
    ["true"], not as the trimmed value ["1"]. *)
Lemma Load_round_trip_counterexample :
  let line := (" " ++ "debug" ++ " " ++ "=" ++ " " ++ "1" ++ " ")%string in
  let fs := one_file "app.conf" (file [line] None) in
  (Load fs "app.conf" README_flags).2 = None /\
  calls (Load fs "app.conf" (logging README_flags)).1 = [("debug", "1")] /\
  flag_Lookup "debug" (Load fs "app.conf" README_flags).1 = Some "true" /\
  flag_Lookup "debug" (Load fs "app.conf" README_flags).1 <> Some "1".
Proof.
  intros line fs. split; [|split; [|split]].
  - vm_compute. reflexivity.
  - vm_compute. reflexivity.
  - vm_compute. reflexivity.
  - vm_compute. discriminate.
Qed.

(** C3 at a value with two more ['='] in it, behind a no-break space. *)
Lemma Load_cuts_at_first_separator_witness :
  let text := (NBSP ++ "key2 = a=b = c")%string in
  let fs := one_file "test.conf" (file [text] None) in
  calls (Load fs "test.conf" (logging TestLoad_flags)).1 = [("key2", "a=b = c")] /\
  exists a b u1 u2,
    TrimSpace text = (a ++ String "=" b)%string /\
    Contains a "=" = false /\
    isSpaces u1 = true /\ isSpaces u2 = true /\
    b = (u1 ++ TrimSpace b ++ u2)%string /\
    S (count "=" (TrimSpace b)) = count "=" text /\
    pairs [] ++ [(TrimSpace a, TrimSpace b)]
      `prefix_of` calls (Load fs "test.conf" (logging TestLoad_flags)).1.
Proof.
  intros text fs. split; [vm_compute; reflexivity|].
  apply (Load_cuts_at_first_separator fs "test.conf" [] text [] None TestLoad_flags).
  - reflexivity.
  - reflexivity.
  - vm_compute. discriminate.
  - reflexivity.
  - reflexivity.
Defined.

(** C10 at a value with a ['#'] in it. *)
Lemma Load_keeps_inline_hash_witness :
  let text := "key1 = value # comment" in
  let fs := one_file "test.conf" (file [text] None) in
  calls (Load fs "test.conf" (logging TestLoad_flags)).1 =
    [("key1", "value # comment")] /\
  exists name value u1 u2 u3 u4,
    isSpaces u1 = true /\ isSpaces u2 = true /\
    isSpaces u3 = true /\ isSpaces u4 = true /\
    text = (u1 ++ name ++ u2 ++ String "=" (u3 ++ value ++ u4))%string /\
    count "#" name + count "#" value = count "#" text /\
    pairs [] ++ [(name, value)]
      `prefix_of` calls (Load fs "test.conf" (logging TestLoad_flags)).1.
Proof.
  intros text fs. split; [vm_compute; reflexivity|].
  apply (Load_keeps_inline_hash fs "test.conf" [] text [] None TestLoad_flags).
  - reflexivity.
  - reflexivity.
  - vm_compute. discriminate.
  - reflexivity.
  - reflexivity.
Defined.

(** C6, as amended, at the tests "Valid config", whose comment line may as
    well not be there, and "Empty file", as delivered and from its
    bytes. *)
Lemma Load_skips_blank_and_comment_lines_witness :
  let fs := one_file "test.conf" (file Valid_config None) in
  let fs' := one_file "test.conf"
               (file ["key1 = value1"; "key2 = value2"; "key3 = value3"] None) in
  let fs0 := one_file "test.conf"
               (file [""; (indent ++ "# Just a comment")%string;
                      (TAB ++ TAB ++ TAB)%string] None) in
  let fsd := one_file "test.conf" (bufio.NewScanner Empty_file) in
  Load fs "test.conf" (logging TestLoad_flags) =
    Load fs' "test.conf" (logging TestLoad_flags) /\
  Load fs0 "test.conf" (logging TestLoad_flags) = (logging TestLoad_flags, None) /\
  Load fsd "test.conf" (logging TestLoad_flags) = (logging TestLoad_flags, None).
Proof.
  intros fs fs' fs0 fsd.
  assert (Hlines : forall P : string -> Prop,
            P "" -> P (indent ++ "# Just a comment")%string ->
            P (TAB ++ TAB ++ TAB)%string ->
            Forall P [""; (indent ++ "# Just a comment")%string;
                      (TAB ++ TAB ++ TAB)%string]).
  { intros P P1 P2 P3. repeat apply List.Forall_cons; auto. }
  destruct (Load_skips_blank_and_comment_lines fs fs' fs0 "test.conf"
              ["key1 = value1"; "key2 = value2"] "# Comment" ["key3 = value3"] None
              (file [""; (indent ++ "# Just a comment")%string;
                     (TAB ++ TAB ++ TAB)%string] None) TestLoad_flags)
    as (Hsame & Hnone & Hbytes).
  - right. exists "", " Comment". split; reflexivity.
  - reflexivity.
  - reflexivity.
  - reflexivity.
  - apply Hlines; [left; reflexivity| |left; reflexivity].
    right. exists indent, " Just a comment". split; reflexivity.
  - reflexivity.
  - split; [exact Hsame|]. split; [exact Hnone|].
    apply (Hbytes Empty_file fsd); [reflexivity|].
    replace (bufio.rawLines Empty_file)
      with [""; (indent ++ "# Just a comment")%string; (TAB ++ TAB ++ TAB)%string]
      by (vm_compute; reflexivity).
    apply Hlines; (split; [apply Nat.ltb_lt; vm_compute; reflexivity|]).
    + left. reflexivity.
    + right. exists indent, " Just a comment". split; reflexivity.
    + left. reflexivity.
Defined.

(** C6 as the specification states it fails at a long line: a file of one
    comment line of 65536 bytes does not fit the scanner's buffer, and
    [Load] returns "failed to scan", with no call to [Set]. *)
Lemma Load_token_too_long_counterexample :
  let fs := one_file "long.conf" (bufio.NewScanner long_comment) in
  comment long_comment /\
  bufio.rawLines long_comment = [long_comment] /\
  String.length long_comment = bufio.MaxScanTokenSize /\
  Load fs "long.conf" (logging TestLoad_flags) =
    (logging TestLoad_flags, Some (failed_to_scan bufio.ErrTooLong)).
Proof.
  intros fs. split; [|split; [|split]].
  - exists "", (repeat_byte "a" (bufio.MaxScanTokenSize - 1)). split; reflexivity.
  - exact bufio_facts.rawLines_long_comment.
  - exact bufio_facts.length_long_comment.
  - unfold fs, Load, one_file. rewrite String.eqb_refl.
    rewrite (bufio_facts.NewScanner_too_long long_comment
               bufio_facts.rawLines_long_comment bufio_facts.length_long_comment).
    reflexivity.
Qed.

(** C7 at the test "Empty value". *)
Lemma Load_accepts_empty_value_witness :
  let fs := one_file "test.conf" (file Empty_value None) in
  let fs' := one_file "test.conf" (file ["key2 = value2"] None) in
  [("key1", "")] `prefix_of` calls (Load fs "test.conf" (logging TestLoad_flags)).1 /\
  Load fs "test.conf" TestLoad_flags =
    Load fs' "test.conf" (flag_Set "key1" "" TestLoad_flags).1 /\
  (Load fs "test.conf" TestLoad_flags).2 = None /\
  flag_Lookup "key1" (Load fs "test.conf" TestLoad_flags).1 = Some "".
Proof.
  intros fs fs'.
  destruct (Load_accepts_empty_value fs fs' "test.conf" [] "key1 " " "
              ["key2 = value2"] None TestLoad_flags) as (Hcalls & Hload & Hstring);
    try reflexivity.
  destruct (Hstring TestLoad_flags
              {| flag.Name := "key1"; flag.Usage := "key1 flag";
                 flag.Value_ := flag.stringValue ""; flag.DefValue := "" |} "")
    as [Hok Hread]; try reflexivity.
  split; [exact Hcalls|]. split; [apply Hload; exact Hok|].
  split; [vm_compute; reflexivity|].
  apply Hread. apply List.Forall_cons; [|apply List.Forall_nil].
  intros [v E]. vm_compute in E. discriminate.
Defined.

(** C8 at the test "Empty name", as delivered and from its bytes, and at a
    name part that is a no-break space. *)
Lemma Load_rejects_empty_name_witness :
  let fs := one_file "test.conf" (file Empty_name None) in
  let fs' := one_file "test.conf" (file [(NBSP ++ "= value1")%string] None) in
  flag_Lookup "" TestLoad_flags = None /\
  (exists e, (Load fs "test.conf" TestLoad_flags).2 = Some e) /\
  (exists e, (Load (CreateTemp (raw Empty_name)) "config_test" TestLoad_flags).2 = Some e) /\
  (exists e, (Load fs' "test.conf" TestLoad_flags).2 = Some e).
Proof.
  intros fs fs'. split; [vm_compute; reflexivity|].
  destruct (Load_rejects_empty_name fs "test.conf" (file Empty_name None)
              "" " value1" TestLoad_flags) as [Hlines _].
  { intros v r'. apply flag_facts.Set_unknown. }
  { intros n v r'. apply flag_facts.Set_registers_none. }
  { reflexivity. }
  { left. reflexivity. }
  { reflexivity. }
  { vm_compute. reflexivity. }
  destruct (Load_rejects_empty_name (one_file "config_test" (file [(indent ++ "= value1")%string] None))
              "config_test" (file [(indent ++ "= value1")%string] None)
              indent " value1" TestLoad_flags) as [_ Hbytes].
  { intros v r'. apply flag_facts.Set_unknown. }
  { intros n v r'. apply flag_facts.Set_registers_none. }
  { reflexivity. }
  { left. reflexivity. }
  { reflexivity. }
  { vm_compute. reflexivity. }
  destruct (Load_rejects_empty_name fs' "test.conf"
              (file [(NBSP ++ "= value1")%string] None) NBSP " value1" TestLoad_flags)
    as [Hnbsp _].
  { intros v r'. apply flag_facts.Set_unknown. }
  { intros n v r'. apply flag_facts.Set_registers_none. }
  { reflexivity. }
  { left. reflexivity. }
  { reflexivity. }
  { vm_compute. reflexivity. }
  split; [exact Hlines|]. split; [|exact Hnbsp].
  apply (Hbytes (raw Empty_name) (CreateTemp (raw Empty_name))); [reflexivity|].
  vm_compute. right; left. reflexivity.
Defined.

(** C9, as amended, at the scenario of the specification: the file gives
    [db-url], [server-port] and [debug] their values, and [server-host],
    which it does not name, keeps its default. *)
Lemma Load_frame_witness :
  let fs := one_file "defaults.conf" (file README_conf None) in
  (Load fs "defaults.conf" README_flags).2 = None /\
  flag_Lookup "db-url" (Load fs "defaults.conf" README_flags).1 =
    Some "example.com:5432" /\
  flag_Lookup "server-port" (Load fs "defaults.conf" README_flags).1 = Some "9090" /\
  flag_Lookup "debug" (Load fs "defaults.conf" README_flags).1 = Some "true" /\
  flag_Lookup "server-host" (Load fs "defaults.conf" README_flags).1 =
    Some "localhost".
Proof.
  intros fs. split; [vm_compute; reflexivity|]. split; [vm_compute; reflexivity|].
  split; [vm_compute; reflexivity|]. split; [vm_compute; reflexivity|].
  rewrite (Load_frame fs "defaults.conf" "server-host" README_flags).
  - vm_compute. reflexivity.
  - intros n v r' Hne. now apply flag_facts.Lookup_Set_other.
  - intros sc [= <-]. simpl.
    repeat apply List.Forall_cons; [| | |apply List.Forall_nil];
      intros [v E]; vm_compute in E; discriminate.
Defined.

(** C9 as the specification states it fails with the README's own
    [config-file] flag: the one entry line of [app.conf] names
    [config-file], no line of it names [key1], and the load of [app.conf]
    changes [key1], through the file that [config-file] makes it load. *)
Lemma Load_nested_counterexample :
  let registry := config_file 2 nested_files in
  Forall (fun t => ~ names "key1" t) app_conf /\
  @flag_Lookup _ registry "key1" TestLoad_flags = Some "" /\
  (@Load _ registry nested_files "app.conf" TestLoad_flags).2 = None /\
  @flag_Lookup _ registry "key1"
    (@Load _ registry nested_files "app.conf" TestLoad_flags).1 = Some "changed".
Proof.
  intros registry. split; [|split; [|split]].
  - apply List.Forall_cons; [|apply List.Forall_nil].
    intros [v E]. vm_compute in E. discriminate.
  - vm_compute. reflexivity.
  - vm_compute. reflexivity.
  - vm_compute. reflexivity.
Qed.

(** C4, as amended, at the test "Flag overriding". *)
Lemma Load_last_write_wins_witness :
  let fs := one_file "test.conf" (file Flag_overriding None) in
  (Load fs "test.conf" TestLoad_flags).2 = None /\
  flag_Lookup "key1" (Load fs "test.conf" TestLoad_flags).1 = Some "value3" /\
  calls (Load fs "test.conf" (logging TestLoad_flags)).1 =
    [("key1", "value1"); ("key1", "value2"); ("key1", "value3")].
Proof.
  intros fs.
  destruct (Load_last_write_wins fs "test.conf"
              ["key1 = value1"; "key1 = value2"] "key1 = value3" []
              "key1" "value3" TestLoad_flags) as (Hany & Hflags).
  - reflexivity.
  - reflexivity.
  - apply List.Forall_nil.
  - assert (Hall : Forall (acceptable TestLoad_flags) Flag_overriding).
    { repeat apply List.Forall_cons; [| | |apply List.Forall_nil]; right; right.
      + exists "key1", "value1". split; vm_compute; reflexivity.
      + exists "key1", "value2". split; vm_compute; reflexivity.
      + exists "key1", "value3". split; vm_compute; reflexivity. }
    assert (Hwrite : forall ops,
              (flag_Set "key1" "value3" (apply_sets ops TestLoad_flags)).2 = None ->
              flag_Lookup "key1" (flag_Set "key1" "value3"
                                    (apply_sets ops TestLoad_flags)).1 = Some "value3").
    { intros ops _.
      apply (flag_facts.FlagSet_write "key1" "value3" ops TestLoad_flags
               {| flag.Name := "key1"; flag.Usage := "key1 flag";
                  flag.Value_ := flag.stringValue ""; flag.DefValue := "" |}).
      reflexivity. }
    destruct (Hany (fun n v f Hne => flag_facts.Lookup_Set_other n v f "key1" Hne)
                flag_facts.FlagSet_error_stable Hwrite Hall) as (Hok & Hread & Hcalls).
    destruct (Hflags TestLoad_flags
                {| flag.Name := "key1"; flag.Usage := "key1 flag";
                   flag.Value_ := flag.stringValue ""; flag.DefValue := "" |}
                eq_refl Hall) as (_ & Hread' & _).
    split; [exact Hok|]. split; [exact Hread'|]. rewrite Hcalls. reflexivity.
Defined.

(** C4 as the specification states it fails for a setting that collects:
    after [tag = a] and [tag = b] the load has succeeded and [tag] holds
    both values, not the value of the last line. *)
Lemma Load_collecting_counterexample :
  let fs := one_file "tags.conf" (file ["tag = a"; "tag = b"] None) in
  (Load fs "tags.conf" tagged_flags).2 = None /\
  flag_Lookup "tag" (Load fs "tags.conf" tagged_flags).1 = Some "a,b" /\
  flag_Lookup "tag" (Load fs "tags.conf" tagged_flags).1 <> Some "b".
Proof.
  intros fs. split; [|split].
  - vm_compute. reflexivity.
  - vm_compute. reflexivity.
  - vm_compute. discriminate.
Qed.

(** C5, as amended, at the test "Invalid line", which fails to load, and at
    the scenario of the README, which loads. *)
Lemma Load_idempotent_witness :
  let fs := one_file "test.conf" (file Invalid_line None) in
  let fs' := one_file "defaults.conf" (file README_conf None) in
  Load fs "test.conf" (Load fs "test.conf" TestLoad_flags).1 =
    Load fs "test.conf" TestLoad_flags /\
  Load fs' "defaults.conf" (Load fs' "defaults.conf" README_flags).1 =
    Load fs' "defaults.conf" README_flags.
Proof.
  intros fs fs'. split.
  - apply Load_idempotent;
      [exact flag_facts.FlagSet_error_stable|exact flag_facts.FlagSet_twice
      |exact flag_facts.FlagSet_again].
  - apply Load_idempotent;
      [exact flag_facts.FlagSet_error_stable|exact flag_facts.FlagSet_twice
      |exact flag_facts.FlagSet_again].
Defined.

(** C5 as the specification states it fails for a setting that collects:
    after one load of a file with the line [tag = a] the flag [tag] holds
    [a], after a second load of the same file it holds [a] twice. *)
Lemma Load_twice_counterexample :
  let fs := one_file "tags.conf" (file ["tag = a"] None) in
  (Load fs "tags.conf" tagged_flags).2 = None /\
  flag_Lookup "tag" (Load fs "tags.conf" tagged_flags).1 = Some "a" /\
  flag_Lookup "tag" (Load fs "tags.conf" (Load fs "tags.conf" tagged_flags).1).1 =
    Some "a,a" /\
  (Load fs "tags.conf" (Load fs "tags.conf" tagged_flags).1).1 <>
    (Load fs "tags.conf" tagged_flags).1.
Proof.
  intros fs. split; [|split; [|split]].
  - vm_compute. reflexivity.
  - vm_compute. reflexivity.
  - vm_compute. reflexivity.
  - intros E. apply (f_equal (flag_Lookup "tag")) in E. vm_compute in E. discriminate.
Qed.

End witnesses.

(** * The package's tests, run on the model *)

Section TestLoad.

Example TestLoad_Empty_file :
  outcome Empty_file = (None, [Some ""; Some ""; Some ""]).
Proof. vm_compute. reflexivity. Qed.

Example TestLoad_Empty_name :
  (outcome (raw Empty_name)).1 =
  Some (failed_to_set_flag "" "value1" (errorString "no such flag -")).
Proof. vm_compute. reflexivity. Qed.

Example TestLoad_Empty_value :
  outcome (raw Empty_value) = (None, [Some ""; Some "value2"; Some ""]).
Proof. vm_compute. reflexivity. Qed.

Example TestLoad_Flag_overriding :
  outcome (raw Flag_overriding) = (None, [Some "value3"; Some ""; Some ""]).
Proof. vm_compute. reflexivity. Qed.

Example TestLoad_Invalid_line :
  outcome (raw Invalid_line) =
  (Some (failed_to_split_line "invalid_line"), [Some "value1"; Some ""; Some ""]).
Proof. vm_compute. reflexivity. Qed.

Example TestLoad_Unknown_flag :
  (outcome (raw Unknown_flag)).1 =
  Some (failed_to_set_flag "unknown_flag" "value"
          (errorString "no such flag -unknown_flag")).
Proof. vm_compute. reflexivity. Qed.

Example TestLoad_Valid_config :
  outcome (raw Valid_config) = (None, [Some "value1"; Some "value2"; Some "value3"]).
Proof. vm_compute. reflexivity. Qed.

Example TestLoad_Whitespace_handling :
  outcome (raw Whitespace_handling) =
  (None, [Some "value1"; Some "value2"; Some "value3"]).
Proof. vm_compute. reflexivity. Qed.

Example TestLoad_Invalid_flag_value :
  (outcome "int_flag = not_an_int").1 =
  Some (failed_to_set_flag "int_flag" "not_an_int" flag.errParse).
Proof. vm_compute. reflexivity. Qed.

Example TestLoad_Non_existent_file :
  Load (CreateTemp "") "Non-existent file" TestLoad_flags =
  (TestLoad_flags,
   Some (failed_to_open_file "Non-existent file"
           (errorString "open Non-existent file: no such file or directory"))).
Proof. reflexivity. Qed.

(** [Example]: [flag.Parse] on [--config-file=] and the path of the file
    sets the flag [config-file], which loads the file. *)
Example Example_output :
  let fs := one_file "config_example" (bufio.NewScanner Example_conf) in
  let '(f, err) := @flag_Set _ (config_file 1 fs) "config-file" "config_example"
                     README_flags in
  (err, map (fun k => flag.Lookup k f) ["server-host"; "server-port"; "db-url"; "debug"]) =
  (None, [Some "localhost"; Some "9090"; Some "example.com:5432"; Some "true"]).
Proof. vm_compute. reflexivity. Qed.

(** White space beyond ASCII: a no-break space and an ideographic space
    are stripped like a blank; a line of them is blank; a ['#'] behind them
    starts a comment; a byte that is part of no well-formed white-space
    rune stays. *)
Example TrimSpace_Unicode :
  strings.TrimSpace (NBSP ++ " key1 " ++ IDSP) = "key1" /\
  readLine (NBSP ++ IDSP) = Skip /\
  readLine (NBSP ++ "# key1 = x") = Skip /\
  readLine ("key1" ++ NBSP ++ "= value1" ++ NBSP) = Pair "key1" "value1" /\
  readLine (NBSP ++ "= value1") = Pair "" "value1" /\
  strings.TrimSpace (" " ++ String (strings.byte 0xA0) " ") =
    String (strings.byte 0xA0) "" /\
  strings.TrimSpace (String (strings.byte 0xC2) " ") = String (strings.byte 0xC2) "".
Proof. vm_compute. repeat split. Qed.

End TestLoad.

(** * Further properties of [Load] *)

Section further_properties.
Context {R : Type} `{Registry R}.
Import strings string_facts.

(** X1. Every error of [Load] has one of four causes, and says which.
    Either the file did not open: the error is "failed to open file" with
    the path and the cause, and the registry is untouched.  Or the loop
    stopped at a line it reached: that line, stripped, is not empty, does
    not start with ['#'] and has no ['='], the error is "failed to split
    line" with the stripped line and the registry is as the earlier lines
    left it; or the line is an entry whose pair the registry's [Set]
    refused, the error is "failed to set flag" with the trimmed name and
    value and the registry's own error, and the registry is as that [Set]
    left it.  Or every line went through and the scanner reported an
    error: "failed to scan" with it, the registry as the lines left it. *)
Theorem Load_error_cases (fs : FileSystem) (configfile : string) (r : R) (e : error) :
  (Load fs configfile r).2 = Some e ->
  (exists cause, fs configfile = inl cause /\
                 e = failed_to_open_file configfile cause /\
                 (Load fs configfile r).1 = r) \/
  (exists sc pre text post,
     fs configfile = inr sc /\ Text sc = pre ++ text :: post /\
     (scan pre r).2 = None /\
     ((e = failed_to_split_line (TrimSpace text) /\
       TrimSpace text <> "" /\ HasPrefix (TrimSpace text) "#" = false /\
       Contains text "=" = false /\
       (Load fs configfile r).1 = (scan pre r).1) \/
      (exists name value cause,
         readLine text = Pair name value /\
         flag_Set name value (scan pre r).1 =
           ((Load fs configfile r).1, Some cause) /\
         e = failed_to_set_flag name value cause))) \/
  (exists sc cause,
     fs configfile = inr sc /\ (scan (Text sc) r).2 = None /\
     Err sc = Some cause /\ e = failed_to_scan cause /\
     (Load fs configfile r).1 = (scan (Text sc) r).1).
Proof.
  intros He. destruct (fs configfile) as [cause|sc] eqn:Hfs.
  - rewrite (Load_not_open _ _ _ _ Hfs) in *. simpl in He. injection He as <-.
    left. now exists cause.
  - rewrite (Load_open _ _ _ _ Hfs) in *. right.
    destruct (scan (Text sc) r) as [r' [e'|]] eqn:Hscan; simpl in *.
    + injection He as ->. left.
      destruct (scan_error_inv (Text sc) r e) as (pre & text & post & Ht & Hpre & Hb);
        [now rewrite Hscan|].
      rewrite Hscan in Hb. simpl in Hb.
      exists sc, pre, text, post. repeat split; try assumption.
      unfold body in Hb. destruct (readLine text) as [|line|n v] eqn:E.
      * discriminate.
      * injection Hb as -> <-.
        destruct (readLine_NoSeparator_inv _ _ E) as (-> & Hne & Hc & Hs). now left.
      * right. destruct (flag_Set n v (scan pre r).1) as [r'' [c|]] eqn:Hs;
          [|discriminate].
        injection Hb as -> <-. now exists n, v, c.
    + destruct (Err sc) as [cause|] eqn:Herr; simpl in *; [|discriminate].
      injection He as <-. right. exists sc, cause. now rewrite Hscan.
Qed.

(** X2. [Load] calls [Set] for entries of the file only, each at most
    once and in file order: the calls it makes are a prefix of the pairs
    of the file's entry lines, and none at all when the file does not
    open. *)
Theorem Load_calls_prefix (fs : FileSystem) (configfile : string) (r : R) :
  calls (Load fs configfile (logging r)).1
    `prefix_of` match fs configfile with
                | inl _ => []
                | inr sc => pairs (Text sc)
                end.
Proof.
  destruct (fs configfile) as [cause|sc] eqn:Hfs.
  - now rewrite (Load_not_open _ _ _ _ Hfs).
  - rewrite (Load_fst _ _ _ _ Hfs).
    destruct (scan_logged_prefix (Text sc) (logging r)) as (k & -> & Hk). exact Hk.
Qed.

(** X3. When [Load] returns no error, the scanner reported none, no line
    of the file lacks its ['='] (each is blank, a comment or has one),
    every entry line was forwarded to [Set], in file order and nothing
    else, and the registry is the one those [Set] calls, made in that
    order, lead to. *)
Theorem Load_success_applies_all (fs : FileSystem) (configfile : string)
    (sc : Scanner) (r : R) :
  fs configfile = inr sc ->
  (Load fs configfile r).2 = None ->
  Err sc = None /\
  Forall (fun t => blank t \/ comment t \/ Contains t "=" = true) (Text sc) /\
  calls (Load fs configfile (logging r)).1 = pairs (Text sc) /\
  (Load fs configfile r).1 = apply_sets (pairs (Text sc)) r.
Proof.
  intros Hfs Hok.
  destruct (Load_success_inv _ _ _ _ Hfs Hok) as (Hscan & Herr & Hst).
  destruct (scan_ok_apply _ _ Hscan) as [Happly Hall].
  repeat split; try assumption.
  - rewrite (Load_fst _ _ _ _ Hfs). now rewrite (scan_logged_ok _ (logging r)).
  - now rewrite Hst.
Qed.

(** X4. Layering.  Loading a file and then a second one is loading the
    bytes of the two put end to end, when the first file is empty or ends
    in a line feed and its lines fit the scanner's buffer: if the first
    file loads without error, the load of the joined bytes returns what the
    load of the second returns from the registry the first one left; if
    not, it returns what the load of the first returns. *)
Theorem Load_concat (fsA fsB fsAB : FileSystem) (pA pB pAB : string)
    (dataA dataB : string) (r : R) :
  fsA pA = inr (bufio.NewScanner dataA) ->
  fsB pB = inr (bufio.NewScanner dataB) ->
  fsAB pAB = inr (bufio.NewScanner (dataA ++ dataB)%string) ->
  dataA = "" \/ (exists x, dataA = (x ++ LF)%string) ->
  Forall fits (bufio.rawLines dataA) ->
  Load fsAB pAB r =
    match (Load fsA pA r).2 with
    | None => Load fsB pB (Load fsA pA r).1
    | Some _ => Load fsA pA r
    end.
Proof.
  intros HA HB HAB Hend Hfits.
  rewrite (Load_open _ _ _ _ HAB), (Load_open _ _ _ _ HA).
  unfold bufio.NewScanner.
  assert (Hlines : bufio.rawLines (dataA ++ dataB)%string =
                   bufio.rawLines dataA ++ bufio.rawLines dataB).
  { destruct Hend as [->|[x ->]]; [reflexivity|apply bufio_facts.rawLines_app]. }
  rewrite Hlines, bufio_facts.deliver_app by assumption.
  rewrite (bufio_facts.deliver_fits (bufio.rawLines dataA)) by assumption.
  simpl. rewrite scan_app.
  destruct (scan (map bufio.dropCR (bufio.rawLines dataA)) r) as [r' [e|]]; simpl;
    [reflexivity|].
  now rewrite (Load_open _ _ _ _ HB).
Qed.

(** X5. Whatever [Load] forwards to [Set] is clean: the name and the value
    carry no white space at their ends, the name has no ['='] and does not
    start with ['#'], and the pair is that of a line of the file. *)
Theorem Load_forwards_clean_pairs (fs : FileSystem) (configfile : string)
    (r : R) (name value : string) :
  In (name, value) (calls (Load fs configfile (logging r)).1) ->
  TrimSpace name = name /\ TrimSpace value = value /\
  Contains name "=" = false /\ HasPrefix name "#" = false /\
  exists sc text, fs configfile = inr sc /\ In text (Text sc) /\
                  readLine text = Pair name value.
Proof.
  intros Hin. destruct (fs configfile) as [cause|sc] eqn:Hfs.
  - rewrite (Load_not_open _ _ _ _ Hfs) in Hin. destruct Hin.
  - rewrite (Load_fst _ _ _ _ Hfs) in Hin.
    destruct (scan_logged_prefix (Text sc) (logging r)) as (k & Hk & [k' Hp]).
    rewrite Hk in Hin. simpl in Hin.
    assert (Hin' : In (name, value) (pairs (Text sc))).
    { rewrite Hp. apply in_or_app. now left. }
    destruct (pairs_In _ _ _ Hin') as (text & Ht & E).
    destruct (readLine_Pair_clean _ _ _ E) as (Hn & Hv & Hs & Hc).
    repeat split; try assumption. now exists sc, text.
Qed.

(** X6. White space around the lines does not matter, as long as the lines
    fit the scanner's buffer: a file whose lines are those of another file
    with white space added in front of them and behind them (indentation,
    trailing blanks, a carriage return), none of 65536 bytes or more,
    loads with the same result, errors included, and leaves the same
    registry. *)
Theorem Load_ignores_surrounding_space (fs fs' : FileSystem) (configfile : string)
    (data data' : string) (r : R) :
  fs configfile = inr (bufio.NewScanner data) ->
  fs' configfile = inr (bufio.NewScanner data') ->
  Forall2 padded (bufio.rawLines data) (bufio.rawLines data') ->
  Forall fits (bufio.rawLines data') ->
  Load fs' configfile r = Load fs configfile r.
Proof.
  intros Hfs Hfs' Hall Hfits.
  assert (Hfits0 : Forall fits (bufio.rawLines data)).
  { clear Hfs Hfs'. induction Hall as [|l l' ls ls' Hl _ IH]; [constructor|].
    inversion Hfits; subst. constructor; [now apply (bufio_facts.padded_fits l l')|auto]. }
  rewrite (Load_open _ _ _ _ Hfs), (Load_open _ _ _ _ Hfs').
  unfold bufio.NewScanner. rewrite !bufio_facts.deliver_fits by assumption. simpl.
  now rewrite (scan_readLine _ _ r (bufio_facts.padded_dropCR _ _ Hall)).
Qed.


(** X8. [Load] changes the registry through [Set] only: whatever every
    [Set] call keeps true of the registry, successful or not, is still true
    after [Load], for every file and every outcome. *)
Theorem Load_preserves_invariant (I : R -> Prop) (fs : FileSystem)
    (configfile : string) (r : R) :
  (forall n v r', I r' -> I (flag_Set n v r').1) ->
  I r -> I (Load fs configfile r).1.
Proof.
  intros Hset Hr. destruct (fs configfile) as [cause|sc] eqn:Hfs.
  - now rewrite (Load_not_open _ _ _ _ Hfs).
  - rewrite (Load_fst _ _ _ _ Hfs). now apply scan_invariant.
Qed.

(** X9. Validation before loading.  With a registry whose [Set] accepts or
    refuses a pair whatever was set before, the fate of a file that opens
    can be read off the registry as it is before the load: [Load] returns
    no error exactly when the scanner reports none and every line is
    blank, a comment, or an entry whose pair that registry accepts. *)
Theorem Load_succeeds_iff (fs : FileSystem) (configfile : string)
    (sc : Scanner) (r : R) :
  (forall n v m w r', (flag_Set n v (flag_Set m w r').1).2 = (flag_Set n v r').2) ->
  fs configfile = inr sc ->
  (Load fs configfile r).2 = None <->
  Err sc = None /\ Forall (acceptable r) (Text sc).
Proof.
  intros Hstable Hfs. rewrite (Load_open _ _ _ _ Hfs).
  rewrite <- (scan_succeeds_iff Hstable (Text sc) [] r). simpl.
  destruct (scan (Text sc) r) as [r' [e|]]; simpl.
  - split; [discriminate|now intros [_ ?]].
  - destruct (Err sc); simpl; split; try discriminate; auto. now intros [? _].
Qed.

(** X10. No rollback.  When the loop stops at a line that fails, the
    registry that [Load] leaves is the one that the [Set] calls of the
    entry lines up to that line and of that line, made in file order from
    the registry [Load] started with, lead to: what the earlier lines
    assigned is not taken back. *)
Theorem Load_registry_after_failure (fs : FileSystem) (configfile : string)
    (pre : list string) (text : string) (post : list string)
    (err : option error) (r : R) :
  fs configfile = inr (file (pre ++ text :: post) err) ->
  (scan pre r).2 = None ->
  (body text (scan pre r).1).2 <> None ->
  (Load fs configfile r).1 = apply_sets (pairs (pre ++ [text])) r.
Proof.
  intros Hfs Hpre Hfail.
  destruct (body text (scan pre r).1).2 as [e|] eqn:He; [clear Hfail|contradiction].
  rewrite (Load_stops_at _ _ _ _ _ _ _ _ Hfs Hpre He). simpl.
  destruct (scan_ok_apply _ _ Hpre) as [Hst _]. rewrite Hst in *.
  rewrite pairs_app, apply_sets_app. unfold body in *.
  destruct (readLine text) as [|line|n v] eqn:E.
  - discriminate.
  - rewrite pairs_other by (intros n v; congruence). reflexivity.
  - rewrite (pairs_Pair _ _ _ E). simpl.
    now destruct (flag_Set n v (apply_sets (pairs pre) r)) as [r' [c|]].
Qed.

End further_properties.

(** * The further properties at the inputs of the tests *)

Section further_witnesses.
Import strings.

(** X1 at the test "Unknown flag". *)
Lemma Load_error_cases_witness :
  let fs := one_file "test.conf" (file Unknown_flag None) in
  let e := failed_to_set_flag "unknown_flag" "value"
             (errorString "no such flag -unknown_flag") in
  (Load fs "test.conf" TestLoad_flags).2 = Some e /\
  exists pre text post,
    Unknown_flag = pre ++ text :: post /\
    (scan pre TestLoad_flags).2 = None /\
    readLine text = Pair "unknown_flag" "value".
Proof.
  intros fs e.
  assert (He : (Load fs "test.conf" TestLoad_flags).2 = Some e)
    by (vm_compute; reflexivity).
  split; [exact He|].
  destruct (Load_error_cases fs "test.conf" TestLoad_flags e He)
    as [(c & Hfs & _)|[(sc & pre & text & post & Hfs & Ht & Hpre & Hcase)
                      |(sc & c & _ & _ & _ & Hc & _)]].
  - vm_compute in Hfs. discriminate.
  - injection Hfs as <-. simpl in Ht. exists pre, text, post.
    split; [exact Ht|]. split; [exact Hpre|].
    destruct Hcase as [(Hsplit & _)|(n & v & c & E & _ & Hset)]; [discriminate|].
    injection Hset as <- <- _. exact E.
  - discriminate.
Defined.

(** X3 at the test "Valid config". *)
Lemma Load_success_applies_all_witness :
  let fs := one_file "test.conf" (file Valid_config None) in
  let entries := [("key1", "value1"); ("key2", "value2"); ("key3", "value3")] in
  calls (Load fs "test.conf" (logging TestLoad_flags)).1 = entries /\
  (Load fs "test.conf" TestLoad_flags).1 = apply_sets entries TestLoad_flags.
Proof.
  intros fs entries.
  destruct (Load_success_applies_all fs "test.conf" (file Valid_config None)
              TestLoad_flags) as (_ & _ & Hcalls & Hst).
  - reflexivity.
  - vm_compute. reflexivity.
  - split; [rewrite Hcalls|rewrite Hst]; reflexivity.
Defined.

(** X4 at the bytes of the tests "Empty value" and "Flag overriding", one
    after the other. *)
Lemma Load_concat_witness :
  let dataA := ("key1 = " ++ LF ++ "key2 = value2" ++ LF)%string in
  let dataB := raw Flag_overriding in
  let fsA := one_file "a.conf" (bufio.NewScanner dataA) in
  let fsB := one_file "b.conf" (bufio.NewScanner dataB) in
  let fsAB := one_file "ab.conf" (bufio.NewScanner (dataA ++ dataB)%string) in
  Load fsAB "ab.conf" TestLoad_flags =
  Load fsB "b.conf" (Load fsA "a.conf" TestLoad_flags).1.
Proof.
  intros dataA dataB fsA fsB fsAB.
  rewrite (Load_concat fsA fsB fsAB "a.conf" "b.conf" "ab.conf" dataA dataB
             TestLoad_flags); try reflexivity.
  - right. exists ("key1 = " ++ LF ++ "key2 = value2")%string. reflexivity.
  - replace (bufio.rawLines dataA) with ["key1 = "; "key2 = value2"]
      by (vm_compute; reflexivity).
    repeat apply List.Forall_cons; [| |apply List.Forall_nil];
      apply Nat.ltb_lt; vm_compute; reflexivity.
Defined.

(** X5 at the first line of the test "Whitespace handling". *)
Lemma Load_forwards_clean_pairs_witness :
  let fs := one_file "test.conf" (file Whitespace_handling None) in
  In ("key1", "value1") (calls (Load fs "test.conf" (logging TestLoad_flags)).1) /\
  TrimSpace "key1" = "key1" /\ TrimSpace "value1" = "value1" /\
  Contains "key1" "=" = false /\ HasPrefix "key1" "#" = false /\
  exists sc text, fs "test.conf" = inr sc /\ In text (Text sc) /\
                  readLine text = Pair "key1" "value1".
Proof.
  intros fs.
  assert (Hin : In ("key1", "value1")
                  (calls (Load fs "test.conf" (logging TestLoad_flags)).1))
    by (vm_compute; left; reflexivity).
  split; [exact Hin|].
  exact (Load_forwards_clean_pairs fs "test.conf" TestLoad_flags "key1" "value1" Hin).
Defined.

(** X6 at the bytes of the test "Invalid line", with and without a tab
    before and a carriage return behind every line. *)
Lemma Load_ignores_surrounding_space_witness :
  let data := String.concat "" (map (fun l => l ++ LF)%string Invalid_line) in
  let data' := String.concat "" (map (fun l => TAB ++ l ++ CR ++ LF)%string Invalid_line) in
  let fs := one_file "test.conf" (bufio.NewScanner data) in
  let fs' := one_file "test.conf" (bufio.NewScanner data') in
  Load fs' "test.conf" TestLoad_flags = Load fs "test.conf" TestLoad_flags.
Proof.
  intros data data' fs fs'.
  apply (Load_ignores_surrounding_space fs fs' "test.conf" data data' TestLoad_flags).
  - reflexivity.
  - reflexivity.
  - replace (bufio.rawLines data) with Invalid_line by (vm_compute; reflexivity).
    replace (bufio.rawLines data')
      with (map (fun l => TAB ++ l ++ CR)%string Invalid_line)
      by (vm_compute; reflexivity).
    repeat apply List.Forall2_cons; [| | |apply List.Forall2_nil];
      exists TAB, CR; repeat split; reflexivity.
  - replace (bufio.rawLines data')
      with (map (fun l => TAB ++ l ++ CR)%string Invalid_line)
      by (vm_compute; reflexivity).
    repeat apply List.Forall_cons; [| | |apply List.Forall_nil];
      apply Nat.ltb_lt; vm_compute; reflexivity.
Defined.


(** X8 at the test "Unknown flag": the load defines no flag. *)
Lemma Load_preserves_invariant_witness :
  let fs := one_file "test.conf" (file Unknown_flag None) in
  flag_Lookup "unknown_flag" TestLoad_flags = None /\
  flag_Lookup "unknown_flag" (Load fs "test.conf" TestLoad_flags).1 = None.
Proof.
  intros fs.
  assert (H0 : flag_Lookup "unknown_flag" TestLoad_flags = None)
    by (vm_compute; reflexivity).
  split; [exact H0|].
  apply (Load_preserves_invariant
           (fun f : flag.FlagSet => flag_Lookup "unknown_flag" f = None)
           fs "test.conf" TestLoad_flags).
  - intros n v r'. apply flag_facts.Set_registers_none.
  - exact H0.
Defined.

(** X9 at the test "Flag overriding": every line is an entry that the flag
    set accepts before the load, so the load succeeds. *)
Lemma Load_succeeds_iff_witness :
  let fs := one_file "test.conf" (file Flag_overriding None) in
  (Load fs "test.conf" TestLoad_flags).2 = None.
Proof.
  intros fs.
  apply (Load_succeeds_iff fs "test.conf" (file Flag_overriding None) TestLoad_flags);
    [exact flag_facts.FlagSet_error_stable|reflexivity|].
  split; [reflexivity|].
  repeat apply List.Forall_cons; [| | |apply List.Forall_nil]; right; right.
  - exists "key1", "value1". split; vm_compute; reflexivity.
  - exists "key1", "value2". split; vm_compute; reflexivity.
  - exists "key1", "value3". split; vm_compute; reflexivity.
Defined.

(** X10 at the test "Invalid line": [key1] keeps what the first line
    assigned. *)
Lemma Load_registry_after_failure_witness :
  let fs := one_file "test.conf" (file Invalid_line None) in
  (Load fs "test.conf" TestLoad_flags).1 =
    apply_sets [("key1", "value1")] TestLoad_flags /\
  (Load fs "test.conf" TestLoad_flags).1 <> TestLoad_flags.
Proof.
  intros fs.
  assert (Hst : (Load fs "test.conf" TestLoad_flags).1 =
                apply_sets [("key1", "value1")] TestLoad_flags).
  { rewrite (Load_registry_after_failure fs "test.conf" ["key1 = value1"]
               "invalid_line" ["key2 = value2"] None TestLoad_flags).
    - reflexivity.
    - reflexivity.
    - reflexivity.
    - vm_compute. discriminate. }
  split; [exact Hst|]. rewrite Hst.
  intros E. apply (f_equal (flag_Lookup "key1")) in E. vm_compute in E. discriminate.
Defined.

End further_witnesses.

Section messages.

(** X11. The errors of [Load] are plain [fmt.Errorf] errors, told apart by
    their text only; and the text does tell them apart: two errors of
    [Load] of different causes (open, split, set, scan) never have the
    same message, whatever path, line, name, value or wrapped error they
    carry. *)
Theorem Error_tells_causes_apart (e1 e2 : error) :
  match e1, e2 with
  | errorString _, _ | _, errorString _ => True
  | failed_to_open_file _ _, failed_to_open_file _ _
  | failed_to_split_line _, failed_to_split_line _
  | failed_to_set_flag _ _ _, failed_to_set_flag _ _ _
  | failed_to_scan _, failed_to_scan _ => True
  | _, _ => Error e1 <> Error e2
  end.
Proof.
  destruct e1, e2; simpl; try exact I;
    intros E; vm_compute in E; discriminate E.
Qed.

(** The messages of the tests "Invalid line" and "Unknown flag". *)
Example Error_Invalid_line :
  Error (failed_to_split_line "invalid_line") =
  "failed to split line (expected to find an '='): invalid_line".
Proof. reflexivity. Qed.

Example Error_Unknown_flag :
  Error (failed_to_set_flag "unknown_flag" "value"
           (errorString "no such flag -unknown_flag")) =
  "failed to set flag 'unknown_flag' to value 'value': no such flag -unknown_flag".
Proof. reflexivity. Qed.

End messages.
